(** * Tornado simulator: a shallow embedding of [tornado_simulator.py]

    The simulation core of the program is embedded as Rocq functions:
    the configuration constants, the EF level table, [Particle]
    ([random], [update], [project]), [lerp_radius], [Debris] ([spawn],
    [update]) and the state-changing part of [TornadoSimulator]
    ([__init__], the event dispatch of [run], [update], and the
    projection pass of [draw_particles]).

    Modelling conventions.
    - Python floats are modelled by the real numbers [R]: arithmetic is
      exact, [math.cos] is [cos], [math.tau] is [2 * PI], and [**] is
      [py_pow].  Rounding of binary64 arithmetic is not modelled there;
      where rounding decides a property (the ageing of debris), the
      code is modelled a second time on binary64 floats ([DebrisF]).
    - Python ints are [Z]; [int(x)] truncates towards zero ([py_int]).
    - The module-level generator of [random] is an explicit stream of
      the successive results of [random.random()], threaded through
      the code by a small state monad ([Rand]).
    - A raised exception is [None].
    - [Debris] objects live in a store indexed by references, because
      the update sweep mutates them in place while iterating over a
      copy of the list that shares them, and [list.remove] compares
      them by value (the dataclass [__eq__]). *)

From Stdlib Require Import PrimFloat.
From Stdlib Require Import QArith Qround.
From Stdlib Require Import Reals Lra Lia ZArith List String Bool.
Import ListNotations.

Open Scope R_scope.

(** ** Configuration *)

(** [int(x)] on a rational constant: truncation towards zero. *)
Definition Qtrunc (q : Q) : Z :=
  if Qle_bool 0 q then Qfloor q else Qceiling q.

Definition WIDTH : Z := 960.
Definition HEIGHT : Z := 720.
Definition FPS : Z := 60.

Definition CENTER_X : Z := (WIDTH / 2)%Z.
Definition GROUND_Y : Z := Qtrunc (inject_Z HEIGHT * 0.85)%Q.
Definition MAX_TORNADO_HEIGHT : Z := Qtrunc (inject_Z HEIGHT * 0.75)%Q.
Definition PARTICLES_PER_LEVEL : nat := 220.

Record Level : Type := mkLevel {
  swirl : R;
  lift : R;
  base_radius : R;
  debris : R;
  color : Z * Z * Z
}.

(** The dict literal; Python dicts keep insertion order. *)
Definition EF_LEVELS : list (string * Level) :=
  [ ("EF0"%string, mkLevel 1.2 120.0 130.0 0.12 (180, 200, 220)%Z);
    ("EF1"%string, mkLevel 1.6 160.0 155.0 0.18 (190, 210, 230)%Z);
    ("EF2"%string, mkLevel 2.2 200.0 180.0 0.26 (210, 220, 230)%Z);
    ("EF3"%string, mkLevel 2.9 240.0 210.0 0.35 (230, 230, 235)%Z);
    ("EF4"%string, mkLevel 3.6 300.0 240.0 0.47 (245, 240, 230)%Z);
    ("EF5"%string, mkLevel 4.5 360.0 280.0 0.60 (255, 250, 220)%Z) ].

(** ** Python primitives *)

(** [d[k]]: [None] is [KeyError]. *)
Fixpoint dict_get {A : Type} (d : list (string * A)) (k : string) : option A :=
  match d with
  | [] => None
  | (k', v) :: rest => if String.eqb k' k then Some v else dict_get rest k
  end.

(** [l[i]]: negative indices count from the end; [None] is [IndexError]. *)
Definition py_index {A : Type} (l : list A) (i : Z) : option A :=
  let n := Z.of_nat (List.length l) in
  if (i <? 0)%Z then
    if (i + n <? 0)%Z then None else nth_error l (Z.to_nat (i + n))
  else nth_error l (Z.to_nat i).

(** [int(x)] on a float: truncation towards zero. *)
Definition py_int (x : R) : Z :=
  if Rle_dec 0 x then Int_part x else (- Int_part (- x))%Z.

Definition is_integer (y : R) : bool :=
  if Req_dec_T y (IZR (Int_part y)) then true else false.

(** [x ** y] on floats.  [None] stands for the two cases in which the
    result is not a float: [0.0 ** y] with [y < 0] raises
    [ZeroDivisionError], and a negative base with a non-integral
    exponent yields a [complex], on which the [int(...)] of the callers
    raises [TypeError]. *)
Definition py_pow (x y : R) : option R :=
  if Rlt_dec 0 x then Some (Rpower x y)
  else if Req_dec_T x 0 then
    if Rlt_dec 0 y then Some 0
    else if Req_dec_T y 0 then Some 1 else None
  else if is_integer y then Some (powerRZ x (Int_part y)) else None.

Definition tau : R := 2 * PI.

(** ** The random generator *)

(** The successive results of [random.random()]. *)
Definition Rng : Type := nat -> R.

Definition Rand (A : Type) : Type := Rng -> A * Rng.

Definition ret {A : Type} (a : A) : Rand A := fun g => (a, g).

Definition bind {A B : Type} (m : Rand A) (k : A -> Rand B) : Rand B :=
  fun g => let (a, g') := m g in k a g'.

Notation "x <- m ;; k" := (bind m (fun x => k))
  (at level 61, m at next level, right associativity).

Definition random : Rand R :=
  fun g => (g 0%nat, fun n => g (S n)).

(** [random.uniform(a, b)] is [a + (b - a) * self.random()].  Over the
    reals the result stays below [b]; in binary64 it can round up to
    [b] itself, which is why the properties of the drawn fields are
    stated with closed upper bounds. *)
Definition uniform (a b : R) : Rand R :=
  u <- random ;; ret (a + (b - a) * u).

(** [random.random()] returns a value in [[0, 1)]. *)
Definition rng_ok (g : Rng) : Prop := forall n, 0 <= g n < 1.

(** ** Particle *)

Record Particle : Type := mkParticle {
  radius_seed : R;
  altitude : R;
  angle : R;
  swirl_variation : R;
  brightness : R
}.

(** [Particle.random]: keyword arguments are evaluated left to right. *)
Definition Particle_random : Rand Particle :=
  rs <- uniform 0.2 1.0 ;;
  al <- uniform 0.0 (IZR MAX_TORNADO_HEIGHT) ;;
  an <- uniform 0.0 tau ;;
  sv <- uniform 0.6 1.4 ;;
  br <- uniform 0.5 1.0 ;;
  ret (mkParticle rs al an sv br).

(** [Particle.update] *)
Definition Particle_update (dt swirl_speed lift_speed base_radius : R)
    (self : Particle) : Rand Particle :=
  let angle1 := angle self + swirl_speed * dt * swirl_variation self in
  let altitude1 :=
    altitude self + lift_speed * dt * (0.4 + 0.6 * radius_seed self) in
  if Rgt_dec altitude1 (IZR MAX_TORNADO_HEIGHT) then
    an <- uniform 0.0 tau ;;
    rs <- uniform 0.2 1.0 ;;
    br <- uniform 0.5 1.0 ;;
    ret (mkParticle rs (altitude1 - IZR MAX_TORNADO_HEIGHT) an
           (swirl_variation self) br)
  else
    ret (mkParticle (radius_seed self) altitude1 angle1
           (swirl_variation self) (brightness self)).

(** [lerp_radius] *)
Definition lerp_radius (seed base_radius height_ratio : R) : option R :=
  let neck_ratio := 0.05 + 0.35 * (1 - seed) in
  match py_pow (1 - height_ratio) (0.4 + neck_ratio) with
  | Some pw =>
      let width := base_radius * pw in
      Some (width * (0.6 + 0.4 * seed))
  | None => None
  end.

(** [Particle.project] *)
Definition project (base_radius : R) (self : Particle) : option (Z * Z * Z) :=
  let height_ratio := altitude self / IZR MAX_TORNADO_HEIGHT in
  match lerp_radius (radius_seed self) base_radius height_ratio with
  | Some radius =>
      let x := IZR CENTER_X + cos (angle self) * radius in
      let y := IZR GROUND_Y - altitude self in
      let size := Z.max 1 (py_int (4 * (1 - height_ratio) + 1)) in
      Some (py_int x, py_int y, size)
  | None => None
  end.

(** The third component of what [project] returns. *)
Definition render_size (base_radius : R) (self : Particle) : option Z :=
  option_map snd (project base_radius self).

(** Several ticks of one particle, each with its own time step and
    level parameters [(dt, swirl, lift, base_radius)]. *)
Fixpoint Particle_updates (ticks : list (R * R * R * R)) (self : Particle)
    : Rand Particle :=
  match ticks with
  | [] => ret self
  | (dt, sw, lf, br) :: rest =>
      p <- Particle_update dt sw lf br self ;; Particle_updates rest p
  end.

(** The same tick repeated [n] times. *)
Fixpoint Particle_update_n (n : nat) (dt sw lf br : R) (self : Particle)
    : Rand Particle :=
  match n with
  | O => ret self
  | S k => p <- Particle_update dt sw lf br self ;; Particle_update_n k dt sw lf br p
  end.

(** ** Debris *)

Record Debris : Type := mkDebris {
  x : R;
  y : R;
  velocity_x : R;
  velocity_y : R;
  lifetime : R
}.

(** [Debris.spawn] *)
Definition Debris_spawn : Rand Debris :=
  ang <- uniform 0 tau ;;
  speed <- uniform 80 220 ;;
  rx <- uniform 10 80 ;;
  ry <- uniform 5 20 ;;
  rv <- uniform 30 160 ;;
  lt <- uniform 0.6 1.4 ;;
  ret (mkDebris (IZR CENTER_X + cos ang * rx) (IZR GROUND_Y - ry)
         (cos ang * speed) (- rv) lt).

(** [Debris.update] *)
Definition Debris_update (dt : R) (self : Debris) : Debris :=
  let vy := velocity_y self + 220 * dt in
  mkDebris (x self + velocity_x self * dt) (y self + vy * dt)
    (velocity_x self) vy (lifetime self - dt).

(** The dataclass [__eq__]: field-wise comparison. *)
Definition Debris_eqb (a b : Debris) : bool :=
  (if Req_dec_T (x a) (x b) then true else false) &&
  (if Req_dec_T (y a) (y b) then true else false) &&
  (if Req_dec_T (velocity_x a) (velocity_x b) then true else false) &&
  (if Req_dec_T (velocity_y a) (velocity_y b) then true else false) &&
  (if Req_dec_T (lifetime a) (lifetime b) then true else false).

(** The removal test of the sweep:
    [debris.lifetime <= 0 or debris.y > HEIGHT]. *)
Definition expired (d : Debris) : bool :=
  (if Rle_dec (lifetime d) 0 then true else false) ||
  (if Rgt_dec (y d) (IZR HEIGHT) then true else false).

(** ** The store of debris objects *)

Definition ref : Type := nat.
Definition Heap : Type := ref -> Debris.

Definition heap_set (h : Heap) (r : ref) (d : Debris) : Heap :=
  fun r' => if Nat.eqb r' r then d else h r'.

(** [l.remove(o)]: drops the first element that is [o] or equal to it;
    [None] is [ValueError]. *)
Fixpoint list_remove (h : Heap) (o : ref) (l : list ref) : option (list ref) :=
  match l with
  | [] => None
  | r :: rest =>
      if Nat.eqb r o || Debris_eqb (h r) (h o) then Some rest
      else match list_remove h o rest with
           | Some rest' => Some (r :: rest')
           | None => None
           end
  end.

(** The loop [for debris in self.debris_particles[:]]: [snapshot] is
    what is left of the copy, [live] the list being mutated. *)
Fixpoint sweep (dt : R) (snapshot : list ref) (h : Heap) (live : list ref)
    : option (Heap * list ref) :=
  match snapshot with
  | [] => Some (h, live)
  | r :: rest =>
      let h' := heap_set h r (Debris_update dt (h r)) in
      if expired (h' r) then
        match list_remove h' r live with
        | Some live' => sweep dt rest h' live'
        | None => None
        end
      else sweep dt rest h' live
  end.

(** ** TornadoSimulator *)

Record TornadoSimulator : Type := mkSim {
  particles : list Particle;
  debris_heap : Heap;
  next_ref : ref;
  debris_particles : list ref;
  level_index : Z;
  time : R
}.

Definition level_names : list string := map fst EF_LEVELS.

Definition no_debris : Debris := mkDebris 0 0 0 0 0.

(** [[Particle.random() for _ in range(n)]] *)
Fixpoint random_particles (n : nat) : Rand (list Particle) :=
  match n with
  | O => ret []
  | S k => p <- Particle_random ;; ps <- random_particles k ;; ret (p :: ps)
  end.

(** [TornadoSimulator.__init__], without the pygame surfaces. *)
Definition init : Rand TornadoSimulator :=
  ps <- random_particles PARTICLES_PER_LEVEL ;;
  ret (mkSim ps (fun _ => no_debris) 0%nat [] 2%Z 0.0).

(** The property [current_level]. *)
Definition current_level (self : TornadoSimulator) : option Level :=
  match py_index level_names (level_index self) with
  | Some name => dict_get EF_LEVELS name
  | None => None
  end.

(** *** Events *)

(** pygame's key codes used by [run]. *)
Definition K_RETURN : Z := 13.
Definition K_ESCAPE : Z := 27.
Definition K_SPACE : Z := 32.
Definition K_0 : Z := 48.
Definition K_5 : Z := 53.

Inductive Event : Type :=
| QUIT
| KEYDOWN (key : Z)
| OTHER.

Definition set_level_index (self : TornadoSimulator) (i : Z) : TornadoSimulator :=
  mkSim (particles self) (debris_heap self) (next_ref self)
    (debris_particles self) i (time self).

Definition add_time (self : TornadoSimulator) (dt : R) : TornadoSimulator :=
  mkSim (particles self) (debris_heap self) (next_ref self)
    (debris_particles self) (level_index self) (time self + dt).

(** The body of [for event in pygame.event.get()], on the pair of the
    local [running] and [self]. *)
Definition handle_event (event : Event) (st : bool * TornadoSimulator)
    : bool * TornadoSimulator :=
  let (running, self) := st in
  match event with
  | QUIT => (false, self)
  | KEYDOWN key =>
      if (key =? K_ESCAPE)%Z then (false, self)
      else if (key =? K_SPACE)%Z || (key =? K_RETURN)%Z then
        (running,
         set_level_index self
           ((level_index self + 1) mod Z.of_nat (List.length level_names))%Z)
      else if (K_0 <=? key)%Z && (key <=? K_5)%Z then
        (running,
         set_level_index self
           (Z.min (key - K_0) (Z.of_nat (List.length level_names) - 1))%Z)
      else (running, self)
  | OTHER => (running, self)
  end.

Definition handle_events (events : list Event) (st : bool * TornadoSimulator)
    : bool * TornadoSimulator :=
  fold_left (fun s e => handle_event e s) events st.

(** *** Update *)

(** [for particle in self.particles: particle.update(...)] *)
Fixpoint update_particles (dt sw lf br : R) (ps : list Particle)
    : Rand (list Particle) :=
  match ps with
  | [] => ret []
  | p :: rest =>
      p' <- Particle_update dt sw lf br p ;;
      rest' <- update_particles dt sw lf br rest ;;
      ret (p' :: rest')
  end.

(** [TornadoSimulator.update] *)
Definition update (dt : R) (self : TornadoSimulator)
    : Rand (option TornadoSimulator) :=
  match current_level self with
  | None => ret None
  | Some level =>
      ps <- update_particles dt (swirl level) (lift level) (base_radius level)
              (particles self) ;;
      u <- random ;;
      spawned <-
        (if Rlt_dec u (debris level) then
           d <- Debris_spawn ;;
           ret (heap_set (debris_heap self) (next_ref self) d,
                S (next_ref self),
                debris_particles self ++ [next_ref self])
         else ret (debris_heap self, next_ref self, debris_particles self)) ;;
      let '(h, nxt, live) := spawned in
      match sweep dt live h live with
      | Some (h', live') =>
          ret (Some (mkSim ps h' nxt live' (level_index self) (time self)))
      | None => ret None
      end
  end.


(** *** Draw *)

(** The projection pass of [draw_particles]: every particle is projected
    with the current level's base radius; the blitting itself changes no
    simulation state and is not modelled. *)
Fixpoint project_all (base_radius : R) (ps : list Particle)
    : option (list (Z * Z * Z)) :=
  match ps with
  | [] => Some []
  | p :: rest =>
      match project base_radius p, project_all base_radius rest with
      | Some v, Some vs => Some (v :: vs)
      | _, _ => None
      end
  end.

Definition draw_particles (self : TornadoSimulator) : option (list (Z * Z * Z)) :=
  match current_level self with
  | Some level => project_all (base_radius level) (particles self)
  | None => None
  end.

(** One iteration of the loop of [run], given what the clock and the
    event queue deliver. *)
Definition frame (dt : R) (events : list Event) (st : bool * TornadoSimulator)
    : Rand (option (bool * TornadoSimulator)) :=
  let (running, self) := handle_events events (fst st, add_time (snd st) dt) in
  r <- update dt self ;;
  match r with
  | Some self' =>
      match draw_particles self' with
      | Some _ => ret (Some (running, self'))
      | None => ret None
      end
  | None => ret None
  end.

(** ** Reference definitions and sample states *)

(** Python's [round(x)]: to the nearest integer, ties to the even one. *)
Definition py_round (x : R) : Z :=
  let f := Int_part x in
  let d := x - IZR f in
  if Rlt_dec d (1 / 2) then f
  else if Rgt_dec d (1 / 2) then (f + 1)%Z
  else if Z.even f then f else (f + 1)%Z.

(** The render size as the specification words it:
    [max(1, round(4 * (1 - heightRatio) + 1))]. *)
Definition spec_render_size (self : Particle) : Z :=
  let height_ratio := altitude self / IZR MAX_TORNADO_HEIGHT in
  Z.max 1 (py_round (4 * (1 - height_ratio) + 1)).

(** A simulator with no particles and no debris at a given level. *)
Definition sim_at (i : Z) : TornadoSimulator :=
  mkSim [] (fun _ => no_debris) 0%nat [] i 0.

(** A generator that always yields one half. *)
Definition rng_half : Rng := fun _ => 1 / 2.

(** A particle on the ground about to be moved by a four second frame
    at EF5. *)
Definition particle_ground : Particle := mkParticle 1 0 0 1 1.

(** A particle at a tenth of the tornado height. *)
Definition particle_tenth : Particle := mkParticle 0.5 54 0 1 1.

(** A particle on the ground whose angle is just below a full turn. *)
Definition particle_late_angle : Particle := mkParticle 0.5 0 6 1 1.

(** One debris object with a lifetime of one second, well inside the
    canvas, in an otherwise empty simulator at EF2. *)
Definition debris_one : Debris := mkDebris 480 600 0 (-100) 1.

Definition sim_one_debris : TornadoSimulator :=
  mkSim [] (fun _ => debris_one) 1%nat [0%nat] 2%Z 0.

(** A simulator at EF2 holding one particle on the ground. *)
Definition sim_one_particle : TornadoSimulator :=
  mkSim [particle_ground] (fun _ => no_debris) 0%nat [] 2%Z 0.

(** The sweep invariant of the debris store: the list holds distinct,
    already allocated references. *)
Definition debris_wf (self : TornadoSimulator) : Prop :=
  NoDup (debris_particles self) /\
  Forall (fun r => (r < next_ref self)%nat) (debris_particles self).

(** A particle that the tick does not carry over the wrap threshold. *)
Definition no_wrap (dt lift_speed : R) (p : Particle) : Prop :=
  altitude p + lift_speed * dt * (0.4 + 0.6 * radius_seed p)
    <= IZR MAX_TORNADO_HEIGHT.

(** What a tick adds to the altitude before the wrap test. *)
Definition climb (dt lift_speed : R) (p : Particle) : R :=
  lift_speed * dt * (0.4 + 0.6 * radius_seed p).

(** The exponent [0.4 + neck_ratio] of the radius profile. *)
Definition neck_exponent (seed : R) : R := 0.4 + (0.05 + 0.35 * (1 - seed)).

(** The store after every object of [l] has been updated once. *)
Definition heap_update_all (dt : R) (l : list ref) (h : Heap) : Heap :=
  fold_left (fun h' r => heap_set h' r (Debris_update dt (h' r))) l h.

(** The object [r] of the store [h] survives an update by [dt]. *)
Definition alive_after (dt : R) (h : Heap) (r : ref) : bool :=
  negb (expired (Debris_update dt (h r))).


(** A simulator at EF5 holding one particle on the ground. *)
Definition sim_ground_EF5 : TornadoSimulator :=
  mkSim [particle_ground] (fun _ => no_debris) 0%nat [] 5%Z 0.

(** ** Rendering

    The drawing code is modelled by what it hands to pygame: the
    colours, alphas, sizes and positions of the primitives, in drawing
    order.  The text overlay is left out (it formats floats). *)

Definition Color : Type := (Z * Z * Z)%type.

Definition SKY_TOP : Color := (16, 24, 48)%Z.
Definition SKY_BOTTOM : Color := (90, 140, 200)%Z.
Definition GROUND_TOP : Color := (40, 80, 30)%Z.
Definition GROUND_BOTTOM : Color := (12, 40, 18)%Z.

(** One channel of [lerp]: [int(a + (b - a) * t)]. *)
Definition lerp_channel (a b : Z) (t : R) : Z :=
  py_int (IZR a + IZR (b - a) * t).

(** [lerp] *)
Definition lerp (color_a color_b : Color) (t : R) : Color :=
  let '(a0, a1, a2) := color_a in
  let '(b0, b1, b2) := color_b in
  (lerp_channel a0 b0 t, lerp_channel a1 b1 t, lerp_channel a2 b2 t).

(** [draw_vertical_gradient] on a surface of the given size: the lines
    drawn, as (colour, start, end). *)
Definition draw_vertical_gradient (width height : nat)
    (top_color bottom_color : Color) : list (Color * (Z * Z) * (Z * Z)) :=
  map (fun y =>
         let t := INR y / INR height in
         (lerp top_color bottom_color t,
          (0%Z, Z.of_nat y), (Z.of_nat width, Z.of_nat y)))
    (seq 0 height).

(** [range(n, 0, -1)] *)
Definition range_down (n : Z) : list Z :=
  map (fun k => (n - Z.of_nat k)%Z) (seq 0 (Z.to_nat n)).

(** A loop whose body may raise. *)
Fixpoint map_option {A B : Type} (f : A -> option B) (l : list A)
    : option (list B) :=
  match l with
  | [] => Some []
  | a :: rest =>
      match f a with
      | Some b =>
          match map_option f rest with
          | Some bs => Some (b :: bs)
          | None => None
          end
      | None => None
      end
  end.

(** [int(alpha * (r / radius) ** 2)] *)
Definition glow_alpha (alpha radius r : Z) : option Z :=
  match py_pow (IZR r / IZR radius) 2 with
  | Some q => Some (py_int (IZR alpha * q))
  | None => None
  end.

(** pygame accepts a colour only if every component is in 0..255;
    otherwise the drawing call raises [ValueError]. *)
Definition valid_channel (c : Z) : bool := (0 <=? c)%Z && (c <=? 255)%Z.

Definition valid_rgba (c : Color) (a : Z) : bool :=
  let '(c0, c1, c2) := c in
  valid_channel c0 && valid_channel c1 && valid_channel c2 && valid_channel a.

(** One [pygame.draw.circle(glow, ( *color, glow_alpha), ..., r)]. *)
Definition glow_circle (alpha radius : Z) (color : Color) (r : Z)
    : option (Color * Z * Z) :=
  match glow_alpha alpha radius r with
  | Some a => if valid_rgba color a then Some (color, a, r) else None
  | None => None
  end.

(** [draw_radial_glow]: the circles drawn on the glow surface, as
    (colour, alpha, radius), and where the surface is blitted. *)
Definition draw_radial_glow (center : Z * Z) (radius : Z) (color : Color)
    (alpha : Z) : option (list (Color * Z * Z) * (Z * Z)) :=
  match map_option (glow_circle alpha radius color)
          (range_down radius) with
  | Some circles =>
      Some (circles, (fst center - radius, snd center - radius)%Z)
  | None => None
  end.

(** What [draw_particles] draws for one particle. *)
Record Sprite : Type := mkSprite {
  sprite_corner : Z * Z;
  sprite_size : Z;
  sprite_tone : Color;
  sprite_alpha : Z
}.

(** The values [draw_particles] computes for one particle, before the
    drawing call; [None] when [project] raises. *)
Definition particle_sprite (base_radius : R) (tint : Color) (p : Particle)
    : option Sprite :=
  match project base_radius p with
  | Some (px, py, size) =>
      let alpha := py_int (220 * brightness p) in
      let tone := lerp (60, 60, 70)%Z tint (brightness p) in
      Some (mkSprite (px - size, py - size)%Z size tone alpha)
  | None => None
  end.

(** The sprite as it is drawn: [pygame.draw.circle] checks the colour
    [( *tone, alpha)]. *)
Definition draw_sprite (base_radius : R) (tint : Color) (p : Particle)
    : option Sprite :=
  match particle_sprite base_radius tint p with
  | Some s =>
      if valid_rgba (sprite_tone s) (sprite_alpha s) then Some s else None
  | None => None
  end.

(** [draw_particles] in full: the sprites and the two glows. *)
Definition draw_particles_scene (self : TornadoSimulator) (tint : Color)
    : option (list Sprite * (list (Color * Z * Z) * (Z * Z))
              * (list (Color * Z * Z) * (Z * Z))) :=
  match map_option (fun p =>
                      match current_level self with
                      | Some level => draw_sprite (base_radius level) tint p
                      | None => None
                      end) (particles self) with
  | Some sprites =>
      match draw_radial_glow (CENTER_X, GROUND_Y - MAX_TORNADO_HEIGHT / 2)%Z
              220 tint 55,
            draw_radial_glow (CENTER_X, GROUND_Y) 260 (100, 120, 130)%Z 60 with
      | Some g1, Some g2 => Some (sprites, g1, g2)
      | _, _ => None
      end
  | None => None
  end.

(** [draw_debris]: alpha, centre and radius of each circle. *)
Definition debris_alpha (d : Debris) : Z :=
  Z.max 40 (py_int (255 * Rmin 1.0 (lifetime d + 0.3))).

Definition debris_size (d : Debris) : Z :=
  Z.max 2 (py_int (4 - lifetime d * 2)).

Definition draw_debris (self : TornadoSimulator) : list (Z * (Z * Z) * Z) :=
  map (fun r =>
         let d := debris_heap self r in
         (debris_alpha d, (py_int (x d), py_int (y d)), debris_size d))
    (debris_particles self).

(** [draw_ground]: the alpha of each fog line. *)
Definition fog_alpha (fog_height y : nat) : Z :=
  py_int (120 * (1 - INR y / INR fog_height)).

Definition draw_ground : list (Z * Z) :=
  let fog_height := Z.to_nat (HEIGHT - GROUND_Y) in
  map (fun y => (Z.of_nat y, fog_alpha fog_height y)) (seq 0 fog_height).

(** [draw_cloud_layer]: colour with alpha and bounding rectangle
    (left, top, width, height) of each ellipse. *)
Definition cloud (t : R) (i : nat) : (Z * Z * Z * Z) * (R * R * R * R) :=
  let phase := t * (0.2 + INR i * 0.03) in
  let offset := sin phase * 40 in
  let cy := 80 + INR i * 18 + cos (phase * 0.7) * 12 in
  let n := Z.of_nat i in
  ((200 + n * 3, 210 + n * 4, 220 + n * 5, 30 + n * 8)%Z,
   (offset - 160, cy, IZR (WIDTH + 320), 120)).

Definition draw_cloud_layer (self : TornadoSimulator)
    : list ((Z * Z * Z * Z) * (R * R * R * R)) :=
  map (cloud (time self)) (seq 0 8).

(** [draw_tornado_body]: alpha and bounding rectangle of each ring. *)
Definition body_ring (base_radius : R) (layer : nat)
    : option (Z * (R * R * R * R)) :=
  let t := INR layer / 40 in
  match lerp_radius (1 - t * 0.85) base_radius t with
  | Some radius =>
      match py_pow (1 - t) 1.8 with
      | Some q =>
          let alpha := py_int (100 * q) in
          let cy := IZR GROUND_Y - t * IZR MAX_TORNADO_HEIGHT in
          Some (alpha, (IZR CENTER_X - radius, cy - 30, radius * 2, 60))
      | None => None
      end
  | None => None
  end.

Definition draw_tornado_body (self : TornadoSimulator)
    : option (list (Z * (R * R * R * R))) :=
  map_option (fun layer =>
                match current_level self with
                | Some level => body_ring (base_radius level) layer
                | None => None
                end) (seq 0 40).

(** What one call of [draw] puts on the screen, in drawing order. *)
Record Scene : Type := mkScene {
  scene_clouds : list ((Z * Z * Z * Z) * (R * R * R * R));
  scene_body : list (Z * (R * R * R * R));
  scene_particles :
    list Sprite * (list (Color * Z * Z) * (Z * Z))
    * (list (Color * Z * Z) * (Z * Z));
  scene_debris : list (Z * (Z * Z) * Z);
  scene_fog : list (Z * Z)
}.

(** [draw], without the blit of the sky and the overlay. *)
Definition draw (self : TornadoSimulator) : option Scene :=
  match current_level self with
  | Some level =>
      let clouds := draw_cloud_layer self in
      match draw_tornado_body self with
      | Some body =>
          match draw_particles_scene self (color level) with
          | Some ps => Some (mkScene clouds body ps (draw_debris self) draw_ground)
          | None => None
          end
      | None => None
      end
  | None => None
  end.

(** ** The main loop *)

(** [run] over the frames for which the clock and the event queue
    deliver [(dt, events)]: the loop ends when [running] is false at the
    top of an iteration. *)
Fixpoint run (inputs : list (R * list Event)) (st : bool * TornadoSimulator)
    : Rand (option (bool * TornadoSimulator)) :=
  match inputs with
  | [] => ret (Some st)
  | (dt, events) :: rest =>
      if fst st then
        r <- frame dt events st ;;
        match r with
        | Some st' => run rest st'
        | None => ret None
        end
      else ret (Some st)
  end.

(** A particle inside the ranges its constructor draws from. *)
Definition particle_ok (p : Particle) : Prop :=
  0 <= altitude p <= IZR MAX_TORNADO_HEIGHT /\
  0.2 <= radius_seed p <= 1.0 /\
  0.5 <= brightness p <= 1.0.

(** The state in which update and draw are safe. *)
Definition sim_ok (self : TornadoSimulator) : Prop :=
  debris_wf self /\
  (0 <= level_index self < 6)%Z /\
  Forall particle_ok (particles self).

(** Every channel of [c] lies between the same channel of [ca] and of
    [cb]. *)
Definition color_between (ca cb c : Color) : Prop :=
  let '(a0, a1, a2) := ca in
  let '(b0, b1, b2) := cb in
  let '(c0, c1, c2) := c in
  (Z.min a0 b0 <= c0 <= Z.max a0 b0 /\
   Z.min a1 b1 <= c1 <= Z.max a1 b1 /\
   Z.min a2 b2 <= c2 <= Z.max a2 b2)%Z.

(** ** The update sweep on binary64 floats

    The loop of the sweep does not depend on the arithmetic: it is
    written once more over any type of objects, and instantiated with
    debris whose fields are binary64 floats, to show what rounding does
    to the ageing of debris. *)

Section GenericSweep.

Variable D : Type.
Variable obj_update : D -> D.
Variable obj_expired : D -> bool.
Variable obj_eqb : D -> D -> bool.

Definition gheap_set (h : ref -> D) (r : ref) (d : D) : ref -> D :=
  fun r' => if Nat.eqb r' r then d else h r'.

Fixpoint glist_remove (h : ref -> D) (o : ref) (l : list ref)
    : option (list ref) :=
  match l with
  | [] => None
  | r :: rest =>
      if Nat.eqb r o || obj_eqb (h r) (h o) then Some rest
      else match glist_remove h o rest with
           | Some rest' => Some (r :: rest')
           | None => None
           end
  end.

Fixpoint gsweep (snapshot : list ref) (h : ref -> D) (live : list ref)
    : option ((ref -> D) * list ref) :=
  match snapshot with
  | [] => Some (h, live)
  | r :: rest =>
      let h' := gheap_set h r (obj_update (h r)) in
      if obj_expired (h' r) then
        match glist_remove h' r live with
        | Some live' => gsweep rest h' live'
        | None => None
        end
      else gsweep rest h' live
  end.

End GenericSweep.










(** * Properties *)

(** ** Constants *)

Lemma MAX_TORNADO_HEIGHT_val : IZR MAX_TORNADO_HEIGHT = 540.
Proof. replace MAX_TORNADO_HEIGHT with 540%Z by reflexivity. reflexivity. Qed.

Lemma GROUND_Y_val : GROUND_Y = 612%Z.
Proof. reflexivity. Qed.

Lemma HEIGHT_val : IZR HEIGHT = 720.
Proof. reflexivity. Qed.

Lemma level_count : Z.of_nat (List.length level_names) = 6%Z.
Proof. reflexivity. Qed.

Lemma tau_bounds : 6 < tau <= 8.
Proof.
  unfold tau. pose proof PI2_3_2. pose proof PI_4. lra.
Qed.

(** ** Level selection *)

Lemma current_level_in_range (self : TornadoSimulator) :
  (0 <= level_index self < 6)%Z -> exists lvl, current_level self = Some lvl.
Proof.
  intros H. unfold current_level.
  assert (Hc : (level_index self = 0 \/ level_index self = 1 \/
                level_index self = 2 \/ level_index self = 3 \/
                level_index self = 4 \/ level_index self = 5)%Z) by lia.
  destruct Hc as [E | [E | [E | [E | [E | E]]]]]; rewrite E; cbn;
    eexists; reflexivity.
Qed.

Lemma current_level_EF5 (self : TornadoSimulator) :
  level_index self = 5%Z ->
  current_level self = Some (mkLevel 4.5 360.0 280.0 0.60 (255, 250, 220)%Z).
Proof. intros H. unfold current_level. rewrite H. reflexivity. Qed.

(** C10: a freshly constructed simulator is at level index 2, which
    names EF2, whatever the random generator delivers. *)
Theorem init_level_is_EF2 (g : Rng) :
  level_index (fst (init g)) = 2%Z /\
  py_index level_names (level_index (fst (init g))) = Some "EF2"%string /\
  current_level (fst (init g)) =
    Some (mkLevel 2.2 200.0 180.0 0.26 (210, 220, 230)%Z).
Proof.
  unfold init, bind.
  destruct (random_particles PARTICLES_PER_LEVEL g) as [ps g'].
  cbn. repeat split.
Qed.

(** C5: the "next level" keys (space and return) move the level index
    from [i] to [(i + 1) mod 6], leaving [running] and every other
    field alone; from index 5 the index becomes 0. *)
Theorem next_level_cyclic (running : bool) (self : TornadoSimulator) :
  handle_event (KEYDOWN K_SPACE) (running, self) =
    (running, set_level_index self ((level_index self + 1) mod 6)%Z) /\
  handle_event (KEYDOWN K_RETURN) (running, self) =
    (running, set_level_index self ((level_index self + 1) mod 6)%Z) /\
  level_index (snd (handle_event (KEYDOWN K_SPACE)
                      (running, set_level_index self 5))) = 0%Z /\
  level_index (snd (handle_event (KEYDOWN K_RETURN)
                      (running, set_level_index self 5))) = 0%Z /\
  (forall key, key = K_SPACE \/ key = K_RETURN ->
     let st' := handle_event (KEYDOWN key) (running, self) in
     level_index (snd st') = ((level_index self + 1) mod 6)%Z /\
     (level_index self = 5%Z -> level_index (snd st') = 0%Z) /\
     fst st' = running /\
     particles (snd st') = particles self /\
     debris_particles (snd st') = debris_particles self /\
     debris_heap (snd st') = debris_heap self /\
     next_ref (snd st') = next_ref self /\
     time (snd st') = time self).
Proof.
  split; [reflexivity|]. split; [reflexivity|].
  split; [reflexivity|]. split; [reflexivity|].
  intros key [-> | ->]; cbv zeta; cbn [handle_event]; rewrite level_count.
  - cbn. repeat split. intros ->. reflexivity.
  - cbn. repeat split. intros ->. reflexivity.
Qed.

Lemma next_level_cyclic_witness :
  level_index (snd (handle_event (KEYDOWN K_SPACE) (true, sim_at 5))) = 0%Z /\
  level_index (snd (handle_event (KEYDOWN K_RETURN) (true, sim_at 2))) = 3%Z.
Proof.
  destruct (next_level_cyclic true (sim_at 5)) as (_ & _ & _ & _ & H5).
  destruct (next_level_cyclic true (sim_at 2)) as (_ & _ & _ & _ & H2).
  split.
  - exact (proj1 (H5 K_SPACE (or_introl eq_refl))).
  - exact (proj1 (H2 K_RETURN (or_intror eq_refl))).
Defined.

(** C6, as the code has it: the handler is total; a digit key [K_0 + n]
    with [0 <= n <= 5] sets the level index to [min(n, 5) = n], and a
    key [K_0 + n] with [n >= 6] is not a level key at all: it leaves the
    simulator and [running] unchanged. *)
Theorem select_level_guarded (running : bool) (self : TornadoSimulator) (n : Z) :
  (0 <= n)%Z ->
  handle_event (KEYDOWN (K_0 + n)) (running, self) =
    (running,
     if (n <=? 5)%Z then set_level_index self (Z.min n 5) else self) /\
  (n <= 5 -> Z.min n 5 = n)%Z /\
  (let st' := handle_event (KEYDOWN (K_0 + n)) (running, self) in
   level_index (snd st') = (if (n <=? 5)%Z then n else level_index self) /\
   fst st' = running /\
   particles (snd st') = particles self /\
   debris_particles (snd st') = debris_particles self /\
   debris_heap (snd st') = debris_heap self /\
   next_ref (snd st') = next_ref self /\
   time (snd st') = time self).
Proof.
  intros Hn.
  assert (E : handle_event (KEYDOWN (K_0 + n)) (running, self) =
              (running,
               if (n <=? 5)%Z then set_level_index self (Z.min n 5) else self));
    [| split; [exact E|]; split; [lia|]; cbv zeta; rewrite E; cbn [fst snd];
       destruct (n <=? 5)%Z eqn:E5;
       [ cbn; repeat split; lia | repeat split ] ].
  unfold handle_event, K_0, K_5, K_ESCAPE, K_SPACE, K_RETURN.
  rewrite level_count.
  replace (48 + n =? 27)%Z with false by lia.
  replace (48 + n =? 32)%Z with false by lia.
  replace (48 + n =? 13)%Z with false by lia.
  replace (48 <=? 48 + n)%Z with true by lia.
  cbn [orb andb].
  destruct (n <=? 5)%Z eqn:E.
  - replace (48 + n <=? 53)%Z with true by lia.
    replace (48 + n - 48)%Z with n by lia. reflexivity.
  - replace (48 + n <=? 53)%Z with false by lia. reflexivity.
Qed.

Lemma select_level_guarded_witness :
  handle_event (KEYDOWN (K_0 + 3)) (true, sim_at 2) =
    (true, set_level_index (sim_at 2) 3) /\
  handle_event (KEYDOWN (K_0 + 7)) (true, sim_at 2) = (true, sim_at 2) /\
  level_index (snd (handle_event (KEYDOWN (K_0 + 3)) (true, sim_at 2))) = 3%Z /\
  level_index (snd (handle_event (KEYDOWN (K_0 + 7)) (true, sim_at 2))) = 2%Z.
Proof.
  destruct (select_level_guarded true (sim_at 2) 3 ltac:(lia)) as (A1 & _ & A3 & _).
  destruct (select_level_guarded true (sim_at 2) 7 ltac:(lia)) as (B1 & _ & B3 & _).
  split; [exact A1|]. split; [exact B1|]. split; [exact A3 | exact B3].
Defined.

(** C6, as the claim words it, fails: the key for the digit 6 arrives
    at level index 2 and the index stays 2, it does not become 5. *)
Lemma select_level_six_not_clamped :
  level_index (snd (handle_event (KEYDOWN (K_0 + 6)) (true, sim_at 2))) = 2%Z /\
  level_index (snd (handle_event (KEYDOWN (K_0 + 6)) (true, sim_at 2))) <> 5%Z.
Proof.
  split; cbn; [reflexivity | discriminate].
Qed.

(** Every event keeps the level index inside the table. *)
Lemma handle_event_index_in_range (e : Event) (running : bool)
    (self : TornadoSimulator) :
  (0 <= level_index self < 6)%Z ->
  (0 <= level_index (snd (handle_event e (running, self))) < 6)%Z.
Proof.
  intros H. destruct e as [|key|]; cbn [handle_event snd]; try assumption.
  rewrite level_count.
  destruct (key =? K_ESCAPE)%Z; [assumption|].
  destruct ((key =? K_SPACE)%Z || (key =? K_RETURN)%Z).
  - cbn. apply Z.mod_pos_bound. lia.
  - destruct ((K_0 <=? key)%Z && (key <=? K_5)%Z) eqn:E; [|assumption].
    apply andb_prop in E. destruct E as [E1 E2].
    unfold K_0, K_5 in *. cbn. lia.
Qed.

(** ** The random generator *)

Lemma uniform_eq (a b : R) (g : Rng) :
  uniform a b g = (a + (b - a) * g 0%nat, fun n => g (S n)).
Proof. reflexivity. Qed.

Lemma rng_ok_tail (g : Rng) : rng_ok g -> rng_ok (fun n => g (S n)).
Proof. intros H n. apply H. Qed.

Lemma uniform_range (a b : R) (g : Rng) :
  rng_ok g -> a < b -> a <= fst (uniform a b g) < b.
Proof.
  intros Hg Hab. rewrite uniform_eq. cbn [fst].
  specialize (Hg 0%nat). nra.
Qed.

(** ** One tick of a particle *)

Section ParticleTick.

Variables dt sw lf br : R.
Variable p : Particle.
Variable g : Rng.

Lemma Particle_update_no_wrap :
  no_wrap dt lf p ->
  Particle_update dt sw lf br p g =
    (mkParticle (radius_seed p) (altitude p + climb dt lf p)
       (angle p + sw * dt * swirl_variation p)
       (swirl_variation p) (brightness p), g).
Proof.
  unfold no_wrap, Particle_update. intros H.
  destruct (Rgt_dec _ _) as [Hgt | _]; [lra | reflexivity].
Qed.

Lemma Particle_update_wrap :
  ~ no_wrap dt lf p ->
  Particle_update dt sw lf br p g =
    (mkParticle (0.2 + (1.0 - 0.2) * g 1%nat)
       (altitude p + climb dt lf p - IZR MAX_TORNADO_HEIGHT)
       (0.0 + (tau - 0.0) * g 0%nat)
       (swirl_variation p)
       (0.5 + (1.0 - 0.5) * g 2%nat),
     fun n => g (S (S (S n)))).
Proof.
  unfold no_wrap, Particle_update. intros H.
  destruct (Rgt_dec _ _) as [_ | Hle]; [reflexivity | lra].
Qed.

Lemma no_wrap_dec : no_wrap dt lf p \/ ~ no_wrap dt lf p.
Proof. unfold no_wrap. lra. Qed.

Lemma Particle_update_swirl_variation :
  swirl_variation (fst (Particle_update dt sw lf br p g)) = swirl_variation p.
Proof.
  destruct no_wrap_dec as [H | H].
  - rewrite Particle_update_no_wrap by assumption. reflexivity.
  - rewrite Particle_update_wrap by assumption. reflexivity.
Qed.

(** The tick keeps the generator well formed. *)
Lemma Particle_update_rng_ok :
  rng_ok g -> rng_ok (snd (Particle_update dt sw lf br p g)).
Proof.
  intros Hg. destruct no_wrap_dec as [H | H].
  - rewrite Particle_update_no_wrap by assumption. assumption.
  - rewrite Particle_update_wrap by assumption. intros n. apply Hg.
Qed.

(** While one tick climbs by at most the tornado height, the altitude
    stays in range. *)
Lemma Particle_update_altitude_small_step :
  0 <= altitude p <= IZR MAX_TORNADO_HEIGHT ->
  0 <= climb dt lf p <= IZR MAX_TORNADO_HEIGHT ->
  0 <= altitude (fst (Particle_update dt sw lf br p g))
    <= IZR MAX_TORNADO_HEIGHT.
Proof.
  intros Ha Hc. destruct no_wrap_dec as [H | H].
  - rewrite Particle_update_no_wrap by assumption. cbn [fst altitude].
    unfold no_wrap in H. unfold climb in *. lra.
  - rewrite Particle_update_wrap by assumption. cbn [fst altitude].
    unfold no_wrap in H. unfold climb in *. lra.
Qed.

(** On a wrap the three re-seeded fields are fresh draws in the ranges
    of the constructor. *)
Lemma Particle_update_wrap_reseeds :
  rng_ok g -> ~ no_wrap dt lf p ->
  let p' := fst (Particle_update dt sw lf br p g) in
  altitude p' = altitude p + climb dt lf p - IZR MAX_TORNADO_HEIGHT /\
  angle p' = fst (uniform 0.0 tau g) /\
  0 <= angle p' < tau /\
  0.2 <= radius_seed p' < 1.0 /\
  0.5 <= brightness p' < 1.0.
Proof.
  intros Hg H. rewrite Particle_update_wrap by assumption.
  rewrite uniform_eq.
  cbn [fst altitude angle radius_seed brightness].
  pose proof tau_bounds. pose proof (Hg 0%nat). pose proof (Hg 1%nat).
  pose proof (Hg 2%nat). repeat split; try nra.
Qed.

End ParticleTick.

(** C9: no update tick changes [swirl_variation], whether or not the
    wrap and re-seed fire; neither does any sequence of ticks, each with
    its own time step and level parameters. *)
Theorem swirl_variation_preserved (ticks : list (R * R * R * R))
    (dt sw lf br : R) (p : Particle) (g : Rng) :
  swirl_variation (fst (Particle_update dt sw lf br p g)) = swirl_variation p /\
  swirl_variation (fst (Particle_updates ticks p g)) = swirl_variation p.
Proof.
  split; [apply Particle_update_swirl_variation|].
  revert p g. induction ticks as [| [[[dt' sw'] lf'] br'] rest IH]; intros p g.
  - reflexivity.
  - cbn [Particle_updates]. unfold bind.
    pose proof (Particle_update_swirl_variation dt' sw' lf' br' p g) as Hs.
    destruct (Particle_update dt' sw' lf' br' p g) as [p1 g1].
    cbn [fst] in Hs. rewrite IH. exact Hs.
Qed.

(** Construction puts every field in its documented range. *)
Lemma Particle_random_ranges (g : Rng) :
  rng_ok g ->
  let p := fst (Particle_random g) in
  0.2 <= radius_seed p < 1.0 /\
  0 <= altitude p < IZR MAX_TORNADO_HEIGHT /\
  0 <= angle p < tau /\
  0.6 <= swirl_variation p < 1.4 /\
  0.5 <= brightness p < 1.0.
Proof.
  intros Hg. unfold Particle_random, bind. rewrite !uniform_eq. unfold ret.
  cbn [fst altitude angle radius_seed brightness swirl_variation].
  rewrite MAX_TORNADO_HEIGHT_val.
  pose proof tau_bounds.
  pose proof (Hg 0%nat). pose proof (Hg 1%nat). pose proof (Hg 2%nat).
  pose proof (Hg 3%nat). pose proof (Hg 4%nat).
  repeat split; nra.
Qed.

(** The same tick repeated while no wrap occurs: altitude and angle grow
    linearly, and nothing reduces the angle. *)
Lemma Particle_update_n_no_wrap (n : nat) (dt sw lf br : R) (p : Particle)
    (g : Rng) :
  0 <= lf * dt * (0.4 + 0.6 * radius_seed p) ->
  altitude p + INR n * (lf * dt * (0.4 + 0.6 * radius_seed p))
    <= IZR MAX_TORNADO_HEIGHT ->
  Particle_update_n n dt sw lf br p g =
    (mkParticle (radius_seed p)
       (altitude p + INR n * (lf * dt * (0.4 + 0.6 * radius_seed p)))
       (angle p + INR n * (sw * dt * swirl_variation p))
       (swirl_variation p) (brightness p), g).
Proof.
  revert p. induction n as [| n IH]; intros p Hc Hn.
  - cbn. unfold ret. destruct p; cbn. f_equal. f_equal; ring.
  - rewrite S_INR in *. pose proof (pos_INR n) as Hpos.
    cbn [Particle_update_n]. unfold bind.
    rewrite Particle_update_no_wrap by (unfold no_wrap; nra).
    rewrite IH; cbn [radius_seed altitude angle swirl_variation brightness].
    + unfold climb. f_equal. f_equal; ring.
    + exact Hc.
    + unfold climb. lra.
Qed.

(** ** Truncation, rounding and powers *)

Lemma Int_part_val (x : R) (z : Z) : IZR z <= x < IZR z + 1 -> Int_part x = z.
Proof.
  intros H. symmetry. apply Int_part_spec. lra.
Qed.

Lemma py_int_nonneg (x : R) : 0 <= x -> py_int x = Int_part x.
Proof.
  intros H. unfold py_int. destruct (Rle_dec 0 x); [reflexivity | contradiction].
Qed.

Lemma py_pow_pos (x y : R) : 0 < x -> py_pow x y = Some (Rpower x y).
Proof.
  intros H. unfold py_pow. destruct (Rlt_dec 0 x); [reflexivity | contradiction].
Qed.

Lemma py_pow_zero (x y : R) : x = 0 -> 0 < y -> py_pow x y = Some 0.
Proof.
  intros Hx Hy. unfold py_pow.
  destruct (Rlt_dec 0 x); [lra|].
  destruct (Req_dec_T x 0); [|contradiction].
  destruct (Rlt_dec 0 y); [reflexivity | contradiction].
Qed.

(** A negative base under a fractional exponent has no float result. *)
Lemma py_pow_neg_frac (x y : R) : x < 0 -> 0 < y < 1 -> py_pow x y = None.
Proof.
  intros Hx Hy. unfold py_pow.
  destruct (Rlt_dec 0 x); [lra|].
  destruct (Req_dec_T x 0); [lra|].
  unfold is_integer. rewrite (Int_part_val y 0) by (cbn; lra).
  destruct (Req_dec_T y 0); [lra | reflexivity].
Qed.

Lemma Rpower_pos (x y : R) : 0 < Rpower x y.
Proof. unfold Rpower. apply exp_pos. Qed.

(** ** The radius profile *)

Section RadiusProfile.

Variables seed base : R.
Hypothesis seed_range : 0.2 <= seed <= 1.0.

Lemma lerp_radius_below_top (h : R) :
  h < 1 ->
  lerp_radius seed base h =
    Some (base * Rpower (1 - h) (neck_exponent seed) * (0.6 + 0.4 * seed)).
Proof.
  intros H. unfold lerp_radius. rewrite py_pow_pos by lra. reflexivity.
Qed.

Lemma lerp_radius_top : lerp_radius seed base 1 = Some 0.
Proof.
  unfold lerp_radius. rewrite py_pow_zero by lra. f_equal. ring.
Qed.

Lemma lerp_radius_above_top (h : R) : 1 < h -> lerp_radius seed base h = None.
Proof.
  intros H. unfold lerp_radius. rewrite py_pow_neg_frac by lra. reflexivity.
Qed.

Hypothesis base_pos : 0 < base.

Lemma lerp_radius_defined (h : R) :
  h <= 1 ->
  exists r, lerp_radius seed base h = Some r /\ 0 <= r /\ (h < 1 -> 0 < r).
Proof.
  intros H. destruct (Rlt_dec h 1) as [Hlt | Hge].
  - eexists. split; [apply lerp_radius_below_top; assumption|].
    pose proof (Rpower_pos (1 - h) (neck_exponent seed)) as Hp.
    assert (0 < base * Rpower (1 - h) (neck_exponent seed) * (0.6 + 0.4 * seed)).
    { apply Rmult_lt_0_compat; [apply Rmult_lt_0_compat; assumption | lra]. }
    split; [lra | intros _; assumption].
  - assert (h = 1) by lra. subst h. exists 0.
    split; [apply lerp_radius_top | split; lra].
Qed.

Lemma lerp_radius_monotone (h1 h2 r1 r2 : R) :
  h1 <= h2 -> h2 <= 1 ->
  lerp_radius seed base h1 = Some r1 ->
  lerp_radius seed base h2 = Some r2 ->
  r2 <= r1.
Proof.
  intros H12 H2 E1 E2.
  destruct (Rlt_dec h2 1) as [Hlt | Hge].
  - rewrite lerp_radius_below_top in E1 by lra.
    rewrite lerp_radius_below_top in E2 by lra.
    injection E1 as <-. injection E2 as <-.
    assert (Hm : Rpower (1 - h2) (neck_exponent seed) <= Rpower (1 - h1) (neck_exponent seed)).
    { apply Rle_Rpower_l; unfold neck_exponent; lra. }
    apply Rmult_le_compat_r; [lra|].
    apply Rmult_le_compat_l; [lra | exact Hm].
  - assert (h2 = 1) by lra. subst h2.
    rewrite lerp_radius_top in E2. injection E2 as <-.
    destruct (lerp_radius_defined h1 ltac:(lra)) as (r & Er & Hr & _).
    congruence.
Qed.

End RadiusProfile.

(** C2: for a seed in [[0.2, 1.0]] and a positive base radius,
    [lerp_radius] is 0 at height ratio 1, strictly positive at every
    height ratio in [[0, 1)], and non-increasing in the height ratio on
    [[0, 1]]. *)
Theorem lerp_radius_profile (seed base h1 h2 : R) :
  0.2 <= seed <= 1.0 -> 0 < base -> 0 <= h1 -> h1 <= h2 -> h2 <= 1 ->
  lerp_radius seed base 1 = Some 0 /\
  exists r1 r2,
    lerp_radius seed base h1 = Some r1 /\
    lerp_radius seed base h2 = Some r2 /\
    r2 <= r1 /\
    (h1 < 1 -> 0 < r1) /\
    (h2 < 1 -> 0 < r2).
Proof.
  intros Hs Hb H1 H12 H2.
  split; [apply lerp_radius_top; assumption|].
  destruct (lerp_radius_defined seed base Hs Hb h1 ltac:(lra)) as (r1 & E1 & _ & P1).
  destruct (lerp_radius_defined seed base Hs Hb h2 ltac:(lra)) as (r2 & E2 & _ & P2).
  exists r1, r2. repeat split; try assumption.
  exact (lerp_radius_monotone seed base Hs Hb h1 h2 r1 r2 H12 H2 E1 E2).
Qed.

Lemma lerp_radius_profile_witness :
  lerp_radius 0.5 180 1 = Some 0 /\
  exists r1 r2,
    lerp_radius 0.5 180 0.25 = Some r1 /\
    lerp_radius 0.5 180 0.75 = Some r2 /\
    r2 <= r1 /\
    (0.25 < 1 -> 0 < r1) /\
    (0.75 < 1 -> 0 < r2).
Proof.
  apply (lerp_radius_profile 0.5 180 0.25 0.75); lra.
Defined.

(** ** Projection *)

Lemma project_in_range (br : R) (p : Particle) :
  0 <= altitude p <= IZR MAX_TORNADO_HEIGHT ->
  0.2 <= radius_seed p <= 1.0 ->
  exists r,
    lerp_radius (radius_seed p) br (altitude p / IZR MAX_TORNADO_HEIGHT) = Some r /\
    project br p =
      Some (py_int (IZR CENTER_X + cos (angle p) * r),
            py_int (IZR GROUND_Y - altitude p),
            Z.max 1 (py_int (4 * (1 - altitude p / IZR MAX_TORNADO_HEIGHT) + 1))).
Proof.
  intros Ha Hs. unfold project.
  rewrite MAX_TORNADO_HEIGHT_val in *.
  destruct (Rlt_dec (altitude p) 540) as [Hlt | Hge].
  - rewrite lerp_radius_below_top by lra. eexists. split; reflexivity.
  - replace (altitude p) with 540 by lra.
    replace (540 / 540) with 1 by lra.
    rewrite lerp_radius_top by assumption. eexists. split; reflexivity.
Qed.

(** Above the tornado height the radius is not a float and [project]
    raises. *)
Lemma project_above_top (br : R) (p : Particle) :
  IZR MAX_TORNADO_HEIGHT < altitude p ->
  0.2 <= radius_seed p <= 1.0 ->
  project br p = None.
Proof.
  intros Ha Hs. unfold project. rewrite MAX_TORNADO_HEIGHT_val in *.
  rewrite lerp_radius_above_top; [reflexivity | assumption |].
  apply (Rmult_lt_reg_r 540); [lra|]. unfold Rdiv.
  rewrite Rmult_assoc, Rinv_l by lra. lra.
Qed.

(** C8, as the code has it: for a particle in range, [project] returns
    the render size [max(1, int(4 * (1 - heightRatio) + 1))], where
    [int] truncates (here: rounds down), and that size lies between 1
    and 5. *)
Theorem render_size_truncates (br : R) (p : Particle) :
  0 <= altitude p <= IZR MAX_TORNADO_HEIGHT ->
  0.2 <= radius_seed p <= 1.0 ->
  let v := 4 * (1 - altitude p / IZR MAX_TORNADO_HEIGHT) + 1 in
  render_size br p = Some (Z.max 1 (py_int v)) /\
  py_int v = Int_part v /\
  (1 <= Z.max 1 (py_int v) <= 5)%Z.
Proof.
  intros Ha Hs v.
  destruct (project_in_range br p Ha Hs) as (r & _ & E).
  unfold render_size. rewrite E. cbn [option_map snd]. fold v.
  split; [reflexivity|].
  rewrite MAX_TORNADO_HEIGHT_val in *.
  assert (Hv : 1 <= v <= 5).
  { unfold v. rewrite MAX_TORNADO_HEIGHT_val.
    assert (0 <= altitude p / 540 <= 1).
    { split.
      - apply Rmult_le_pos; [lra|]. left. apply Rinv_0_lt_compat. lra.
      - apply (Rmult_le_reg_r 540); [lra|]. unfold Rdiv.
        rewrite Rmult_assoc, Rinv_l by lra. lra. }
    lra. }
  rewrite py_int_nonneg by lra. split; [reflexivity|].
  destruct (base_Int_part v) as [Hlo Hhi].
  assert (Hz : (Int_part v <= 5)%Z) by (apply le_IZR; lra).
  lia.
Qed.

Lemma render_size_truncates_witness :
  let v := 4 * (1 - altitude particle_tenth / IZR MAX_TORNADO_HEIGHT) + 1 in
  render_size 180 particle_tenth = Some (Z.max 1 (py_int v)) /\
  py_int v = Int_part v /\
  (1 <= Z.max 1 (py_int v) <= 5)%Z.
Proof.
  apply (render_size_truncates 180 particle_tenth).
  - rewrite MAX_TORNADO_HEIGHT_val. cbn. lra.
  - cbn. lra.
Defined.

(** C8, as the claim words it, fails: at a tenth of the tornado height
    [4 * (1 - heightRatio) + 1] is 4.6; the code returns 4, rounding
    gives 5. *)
Lemma render_size_is_not_rounded :
  render_size 180 particle_tenth = Some 4%Z /\
  spec_render_size particle_tenth = 5%Z /\
  render_size 180 particle_tenth <> Some (spec_render_size particle_tenth).
Proof.
  assert (Hv : 4 * (1 - altitude particle_tenth / IZR MAX_TORNADO_HEIGHT) + 1
               = 4.6).
  { rewrite MAX_TORNADO_HEIGHT_val. cbn. lra. }
  assert (Hi : Int_part 4.6 = 4%Z) by (apply Int_part_val; cbn; lra).
  assert (E1 : render_size 180 particle_tenth = Some 4%Z).
  { destruct (project_in_range 180 particle_tenth) as (r & _ & E).
    - rewrite MAX_TORNADO_HEIGHT_val. cbn. lra.
    - cbn. lra.
    - unfold render_size. rewrite E. cbn [option_map snd].
      rewrite Hv, py_int_nonneg by lra. rewrite Hi. reflexivity. }
  assert (E2 : spec_render_size particle_tenth = 5%Z).
  { unfold spec_render_size, py_round. rewrite Hv, Hi.
    destruct (Rlt_dec (4.6 - 4) (1 / 2)); [lra|].
    destruct (Rgt_dec (4.6 - 4) (1 / 2)); [reflexivity | lra]. }
  repeat split; try assumption.
  rewrite E1, E2. discriminate.
Qed.

(** ** The altitude range *)

(** X23: while every tick has [0 <= lift * dt <= MAX_TORNADO_HEIGHT],
    the altitude and the radius seed stay in range over any number of
    ticks. *)
Lemma Particle_updates_altitude_small_steps (ticks : list (R * R * R * R)) :
  Forall (fun t => match t with
                   | (dt, _, lf, _) => 0 <= lf * dt <= IZR MAX_TORNADO_HEIGHT
                   end) ticks ->
  forall (p : Particle) (g : Rng),
  rng_ok g ->
  0.2 <= radius_seed p <= 1.0 ->
  0 <= altitude p <= IZR MAX_TORNADO_HEIGHT ->
  0 <= altitude (fst (Particle_updates ticks p g)) <= IZR MAX_TORNADO_HEIGHT.
Proof.
  induction 1 as [| [[[dt sw] lf] br] rest Ht _ IH]; intros p g Hg Hs Ha.
  - exact Ha.
  - cbn [Particle_updates]. unfold bind.
    assert (Hc : 0 <= climb dt lf p <= IZR MAX_TORNADO_HEIGHT).
    { unfold climb. rewrite MAX_TORNADO_HEIGHT_val in *. nra. }
    pose proof (Particle_update_altitude_small_step dt sw lf br p g Ha Hc) as Ha1.
    pose proof (Particle_update_rng_ok dt sw lf br p g Hg) as Hg1.
    assert (Hs1 : 0.2 <= radius_seed (fst (Particle_update dt sw lf br p g)) <= 1.0).
    { destruct (no_wrap_dec dt lf p) as [H | H].
      - rewrite Particle_update_no_wrap by assumption. exact Hs.
      - destruct (Particle_update_wrap_reseeds dt sw lf br p g Hg H)
          as (_ & _ & _ & Hr & _). lra. }
    destruct (Particle_update dt sw lf br p g) as [p1 g1].
    cbn [fst snd] in *. apply IH; assumption.
Qed.

(** A four second frame at EF5: a particle on the ground is lifted to
    1440, wrapped once to 900, and is left above the tornado height of
    540, where [project] raises. *)
Lemma long_frame_tick :
  let p' := fst (Particle_update 4 4.5 360 280 particle_ground rng_half) in
  0 <= altitude particle_ground <= IZR MAX_TORNADO_HEIGHT /\
  altitude p' = 900 /\
  ~ (0 <= altitude p' <= IZR MAX_TORNADO_HEIGHT) /\
  project 280 p' = None.
Proof.
  assert (Hw : ~ no_wrap 4 360 particle_ground).
  { unfold no_wrap. rewrite MAX_TORNADO_HEIGHT_val. cbn. lra. }
  rewrite (Particle_update_wrap 4 4.5 360 280 particle_ground rng_half Hw).
  cbn [fst altitude]. unfold climb.
  rewrite MAX_TORNADO_HEIGHT_val. cbn [particle_ground altitude radius_seed].
  repeat split; try lra.
  apply project_above_top.
  - rewrite MAX_TORNADO_HEIGHT_val. cbn [altitude]. lra.
  - cbn [radius_seed]. unfold rng_half. lra.
Qed.

(** ** The angle *)

(** C7, as the code has it: the angle lies in [[0, 2 pi)] after
    construction and right after a wrap re-seed; a tick without wrap
    adds [swirl * dt * swirl_variation] and reduces nothing, so across
    ticks only the lower bound is kept. *)
Theorem angle_range_by_design (g : Rng) (p : Particle) (dt sw lf br : R) :
  rng_ok g -> 0 <= angle p -> 0 <= sw * dt * swirl_variation p ->
  let p' := fst (Particle_update dt sw lf br p g) in
  0 <= angle (fst (Particle_random g)) < tau /\
  0 <= angle p' /\
  (~ no_wrap dt lf p -> angle p' < tau) /\
  (no_wrap dt lf p -> angle p' = angle p + sw * dt * swirl_variation p).
Proof.
  intros Hg Ha Hs p'.
  split; [apply (Particle_random_ranges g Hg)|].
  destruct (no_wrap_dec dt lf p) as [H | H].
  - assert (E : angle p' = angle p + sw * dt * swirl_variation p).
    { unfold p'. rewrite Particle_update_no_wrap by assumption. reflexivity. }
    repeat split; [lra | contradiction | intros _; exact E].
  - destruct (Particle_update_wrap_reseeds dt sw lf br p g Hg H)
      as (_ & _ & Hr & _).
    fold p' in Hr. repeat split; [lra | intros _; lra | contradiction].
Qed.

Lemma angle_range_by_design_witness :
  let p' := fst (Particle_update (1 / 60) 2.2 200 180 particle_late_angle rng_half) in
  0 <= angle (fst (Particle_random rng_half)) < tau /\
  0 <= angle p' /\
  (~ no_wrap (1 / 60) 200 particle_late_angle -> angle p' < tau) /\
  (no_wrap (1 / 60) 200 particle_late_angle ->
   angle p' = angle particle_late_angle
              + 2.2 * (1 / 60) * swirl_variation particle_late_angle).
Proof.
  apply (angle_range_by_design rng_half particle_late_angle (1 / 60) 2.2 200 180).
  - intros n. unfold rng_half. lra.
  - cbn. lra.
  - cbn. lra.
Defined.

(** C7, as the claim words it, fails: a particle at angle 6 (inside
    [[0, 2 pi)]) updated for one second of 60 Hz ticks at EF2 ends at
    angle 8.2, beyond [2 pi]. *)
Lemma angle_leaves_range :
  0 <= angle particle_late_angle < tau /\
  angle (fst (Particle_update_n 60 (1 / 60) 2.2 200 180
                particle_late_angle rng_half)) = 8.2 /\
  ~ (angle (fst (Particle_update_n 60 (1 / 60) 2.2 200 180
                   particle_late_angle rng_half)) < tau).
Proof.
  pose proof tau_bounds as Ht.
  assert (H60 : INR 60 = 60) by (rewrite INR_IZR_INZ; reflexivity).
  rewrite Particle_update_n_no_wrap.
  - cbn [fst angle particle_late_angle swirl_variation]. rewrite H60.
    repeat split; lra.
  - cbn [radius_seed particle_late_angle]. lra.
  - rewrite H60, MAX_TORNADO_HEIGHT_val.
    cbn [radius_seed altitude particle_late_angle]. lra.
Qed.

(** ** The debris store *)

Lemma heap_set_same (h : Heap) (r : ref) (d : Debris) : heap_set h r d r = d.
Proof. unfold heap_set. rewrite Nat.eqb_refl. reflexivity. Qed.

Lemma heap_set_other (h : Heap) (r r' : ref) (d : Debris) :
  r' <> r -> heap_set h r d r' = h r'.
Proof.
  intros H. unfold heap_set. apply Nat.eqb_neq in H. rewrite H. reflexivity.
Qed.

Lemma heap_update_all_cons (dt : R) (a : ref) (l : list ref) (h : Heap) :
  heap_update_all dt (a :: l) h =
    heap_update_all dt l (heap_set h a (Debris_update dt (h a))).
Proof. reflexivity. Qed.

Lemma heap_update_all_notin (dt : R) (l : list ref) (h : Heap) (r : ref) :
  ~ In r l -> heap_update_all dt l h r = h r.
Proof.
  revert h. induction l as [| a l IH]; intros h Hn; [reflexivity|].
  rewrite heap_update_all_cons.
  rewrite IH by (intros Hin; apply Hn; right; exact Hin).
  apply heap_set_other. intros ->. apply Hn. left. reflexivity.
Qed.

Lemma heap_update_all_in (dt : R) (l : list ref) (h : Heap) (r : ref) :
  NoDup l -> In r l -> heap_update_all dt l h r = Debris_update dt (h r).
Proof.
  revert h. induction l as [| a l IH]; intros h Hnd Hin; [contradiction|].
  inversion Hnd as [| a' l' Ha Hl]; subst.
  rewrite heap_update_all_cons.
  destruct Hin as [-> | Hin].
  - rewrite heap_update_all_notin by assumption. apply heap_set_same.
  - rewrite IH by assumption.
    rewrite heap_set_other; [reflexivity|]. intros ->. contradiction.
Qed.

(** Objects that compare equal agree on the removal test. *)
Lemma Debris_eqb_expired (a b : Debris) :
  Debris_eqb a b = true -> expired a = expired b.
Proof.
  unfold Debris_eqb, expired. intros H.
  repeat (apply andb_prop in H; destruct H as [H ?]).
  destruct (Req_dec_T (y a) (y b)) as [Ey |]; [|discriminate].
  destruct (Req_dec_T (lifetime a) (lifetime b)) as [El |]; [|discriminate].
  rewrite Ey, El. reflexivity.
Qed.

Lemma Debris_eqb_refl (a : Debris) : Debris_eqb a a = true.
Proof.
  unfold Debris_eqb.
  repeat match goal with
         | |- context [Req_dec_T ?u ?u] =>
             destruct (Req_dec_T u u); [|contradiction]
         end.
  reflexivity.
Qed.

(** [remove] drops the object itself when nothing in front of it
    compares equal to it. *)
Lemma list_remove_first (h : Heap) (o : ref) (pre post : list ref) :
  Forall (fun r => r <> o /\ Debris_eqb (h r) (h o) = false) pre ->
  list_remove h o (pre ++ o :: post) = Some (pre ++ post).
Proof.
  induction 1 as [| r pre [Hne Heq] _ IH]; cbn [app list_remove].
  - rewrite Nat.eqb_refl. reflexivity.
  - apply Nat.eqb_neq in Hne. rewrite Hne, Heq. cbn [orb]. rewrite IH.
    reflexivity.
Qed.

(** The sweep, seen from the middle of the loop: [pre] holds the
    survivors met so far, [rest] is what is left of the copy. *)
Lemma sweep_from (dt : R) (rest : list ref) :
  forall (h : Heap) (pre : list ref),
  NoDup (pre ++ rest) ->
  Forall (fun r => expired (h r) = false) pre ->
  sweep dt rest h (pre ++ rest) =
    Some (heap_update_all dt rest h, pre ++ filter (alive_after dt h) rest).
Proof.
  induction rest as [| r rest IH]; intros h pre Hnd Hpre.
  - reflexivity.
  - rewrite heap_update_all_cons. cbn [sweep filter].
    set (h' := heap_set h r (Debris_update dt (h r))).
    assert (Hr : h' r = Debris_update dt (h r)) by apply heap_set_same.
    assert (Hnotpre : ~ In r pre).
    { intros Hin. apply NoDup_remove_2 in Hnd. apply Hnd.
      apply in_or_app. left. exact Hin. }
    assert (Hnotrest : ~ In r rest).
    { intros Hin. apply NoDup_remove_2 in Hnd. apply Hnd.
      apply in_or_app. right. exact Hin. }
    assert (Hpre' : Forall (fun r0 => expired (h' r0) = false) pre).
    { rewrite Forall_forall in *. intros r0 Hin.
      unfold h'. rewrite heap_set_other; [apply Hpre; exact Hin|].
      intros ->. contradiction. }
    assert (Hfilter : filter (alive_after dt h') rest = filter (alive_after dt h) rest).
    { apply filter_ext_in. intros r0 Hin. unfold alive_after, h'.
      rewrite heap_set_other; [reflexivity|]. intros ->. contradiction. }
    unfold alive_after at 1. rewrite <- Hr.
    destruct (expired (h' r)) eqn:Hexp; cbn [negb].
    + rewrite list_remove_first.
      * rewrite IH; [rewrite Hfilter; reflexivity | | exact Hpre'].
        apply NoDup_remove_1 in Hnd. exact Hnd.
      * rewrite Forall_forall in *. intros r0 Hin. split.
        -- intros ->. contradiction.
        -- destruct (Debris_eqb (h' r0) (h' r)) eqn:Heq; [|reflexivity].
           apply Debris_eqb_expired in Heq.
           rewrite (Hpre' r0 Hin), Hexp in Heq. discriminate.
    + replace (pre ++ r :: rest) with ((pre ++ [r]) ++ rest)
        by (rewrite <- app_assoc; reflexivity).
      rewrite IH.
      * rewrite Hfilter, <- app_assoc. reflexivity.
      * rewrite <- app_assoc. exact Hnd.
      * apply Forall_app. split; [exact Hpre'|].
        constructor; [exact Hexp | constructor].
Qed.

(** The whole sweep: every object of the list is updated once, in the
    store, and the list keeps exactly those that are not expired after
    their update. *)
Lemma sweep_spec (dt : R) (h : Heap) (live : list ref) :
  NoDup live ->
  sweep dt live h live =
    Some (heap_update_all dt live h, filter (alive_after dt h) live).
Proof.
  intros Hnd. apply (sweep_from dt live h []); [exact Hnd | constructor].
Qed.


Lemma expired_iff (d : Debris) :
  expired d = true <-> lifetime d <= 0 \/ y d > IZR HEIGHT.
Proof.
  unfold expired.
  destruct (Rle_dec (lifetime d) 0); destruct (Rgt_dec (y d) (IZR HEIGHT));
    cbn; split; intros H; try tauto; try discriminate.
Qed.

Lemma sweep_result_props (dt : R) (h : Heap) (live : list ref) (nxt : ref) :
  NoDup live ->
  Forall (fun r => (r < nxt)%nat) live ->
  NoDup (filter (alive_after dt h) live) /\
  Forall (fun r => (r < nxt)%nat) (filter (alive_after dt h) live) /\
  forall r,
    (In r (filter (alive_after dt h) live) <->
       In r live /\ alive_after dt h r = true) /\
    (In r live -> heap_update_all dt live h r = Debris_update dt (h r)).
Proof.
  intros Hnd Hlt. split; [apply NoDup_filter; exact Hnd|]. split.
  - rewrite Forall_forall in *. intros r Hin. apply filter_In in Hin.
    apply Hlt. tauto.
  - intros r. split; [apply filter_In|].
    intros Hin. apply heap_update_all_in; assumption.
Qed.

(** ** One call of [update] *)

Lemma update_particles_no_wrap (dt sw lf br : R) (ps : list Particle) (g : Rng) :
  Forall (no_wrap dt lf) ps ->
  update_particles dt sw lf br ps g =
    (map (fun p => mkParticle (radius_seed p) (altitude p + climb dt lf p)
                     (angle p + sw * dt * swirl_variation p)
                     (swirl_variation p) (brightness p)) ps, g).
Proof.
  induction 1 as [| p ps Hp _ IH]; [reflexivity|].
  cbn [update_particles map]. unfold bind.
  rewrite Particle_update_no_wrap by assumption. rewrite IH. reflexivity.
Qed.

Lemma update_step (dt : R) (self : TornadoSimulator) (g : Rng) :
  debris_wf self -> (0 <= level_index self < 6)%Z ->
  exists lvl self',
    current_level self = Some lvl /\
    fst (update dt self g) = Some self' /\
    particles self' =
      fst (update_particles dt (swirl lvl) (lift lvl) (base_radius lvl)
             (particles self) g) /\
    level_index self' = level_index self /\
    debris_wf self' /\
    (next_ref self <= next_ref self')%nat /\
    forall r, (r < next_ref self)%nat ->
      (In r (debris_particles self') <->
         In r (debris_particles self) /\
         alive_after dt (debris_heap self) r = true) /\
      (In r (debris_particles self) ->
         debris_heap self' r = Debris_update dt (debris_heap self r)).
Proof.
  intros [Hnd Hlt] Hidx.
  destruct (current_level_in_range self Hidx) as [lvl Hlvl].
  exists lvl. unfold update. rewrite Hlvl. unfold bind.
  destruct (update_particles dt (swirl lvl) (lift lvl) (base_radius lvl)
              (particles self) g) as [ps g1].
  unfold random. destruct (Rlt_dec (g1 0%nat) (debris lvl)) as [Hsp | Hsp].
  - destruct (Debris_spawn (fun n => g1 (S n))) as [d g2]. unfold ret.
    set (n0 := next_ref self). set (L := debris_particles self).
    set (h0 := heap_set (debris_heap self) n0 d).
    assert (Hfresh : ~ In n0 L).
    { intros Hin. rewrite Forall_forall in Hlt. apply Hlt in Hin.
      unfold n0 in Hin. lia. }
    assert (Hnd' : NoDup (L ++ [n0])).
    { apply NoDup_app; [exact Hnd | repeat constructor; intros [] |].
      intros a Ha [<- | []]. contradiction. }
    assert (Hlt' : Forall (fun r => (r < S n0)%nat) (L ++ [n0])).
    { apply Forall_app. split.
      - eapply Forall_impl; [|exact Hlt]. cbn. intros a Ha. unfold n0. lia.
      - repeat constructor. }
    rewrite (sweep_spec dt h0 (L ++ [n0]) Hnd').
    destruct (sweep_result_props dt h0 (L ++ [n0]) (S n0) Hnd' Hlt')
      as (R1 & R2 & R3).
    eexists. cbn [fst]. split; [reflexivity|]. split; [reflexivity|].
    cbn [particles level_index debris_particles debris_heap next_ref].
    split; [reflexivity|]. split; [reflexivity|].
    split; [split; assumption|]. split; [unfold n0; lia|].
    intros r Hr. destruct (R3 r) as [Ra Rb].
    assert (Hneq : r <> n0) by (fold n0 in Hr; lia).
    assert (Hh : h0 r = debris_heap self r)
      by (unfold h0; apply heap_set_other; exact Hneq).
    assert (Hin : In r (L ++ [n0]) <-> In r L).
    { rewrite in_app_iff. cbn. split; [intros [H | [H | []]] | intros H].
      - exact H.
      - congruence.
      - left. exact H. }
    split.
    + rewrite Ra, Hin. unfold alive_after. rewrite Hh. reflexivity.
    + intros HL. rewrite Rb by (apply Hin; exact HL). rewrite Hh. reflexivity.
  - unfold ret.
    rewrite (sweep_spec dt (debris_heap self) (debris_particles self) Hnd).
    destruct (sweep_result_props dt (debris_heap self) (debris_particles self)
                (next_ref self) Hnd Hlt) as (R1 & R2 & R3).
    eexists. cbn [fst]. split; [reflexivity|]. split; [reflexivity|].
    cbn [particles level_index debris_particles debris_heap next_ref].
    split; [reflexivity|]. split; [reflexivity|].
    split; [split; assumption|]. split; [lia|].
    intros r _. exact (R3 r).
Qed.

(** Whatever the other particles do, a particle that does not cross the
    wrap threshold gets the two increments. *)
Lemma update_particles_pointwise (dt sw lf br : R) (ps : list Particle) :
  forall g : Rng,
  Forall2 (fun p p' =>
             no_wrap dt lf p ->
             angle p' = angle p + sw * dt * swirl_variation p /\
             altitude p' = altitude p + lf * dt * (0.4 + 0.6 * radius_seed p))
    ps (fst (update_particles dt sw lf br ps g)).
Proof.
  induction ps as [| p ps IH]; intros g.
  - constructor.
  - cbn [update_particles]. unfold bind.
    pose proof (Particle_update_no_wrap dt sw lf br p g) as Hp.
    destruct (Particle_update dt sw lf br p g) as [p1 g1].
    specialize (IH g1).
    destruct (update_particles dt sw lf br ps g1) as [ps1 g2].
    cbn [fst ret] in *. constructor; [|exact IH].
    intros Hnw. specialize (Hp Hnw). injection Hp as -> _.
    split; reflexivity.
Qed.

(** C3: one call of [update] adds exactly [swirl * dt * swirl_variation]
    to the angle and [lift * dt * (0.4 + 0.6 * radius_seed)] to the
    altitude of every particle that does not cross the wrap threshold;
    at level index 2 (EF2, swirl 2.2, lift 200) and [dt = 1/60] the
    angle grows by [2.2 * (1/60) * swirl_variation]. *)
Theorem update_tick_increments (dt : R) (self : TornadoSimulator) (g : Rng)
    (lvl : Level) :
  debris_wf self ->
  current_level self = Some lvl ->
  (0 <= level_index self < 6)%Z ->
  exists self',
    fst (update dt self g) = Some self' /\
    Forall2 (fun p p' =>
               no_wrap dt (lift lvl) p ->
               angle p' = angle p + swirl lvl * dt * swirl_variation p /\
               altitude p' =
                 altitude p + lift lvl * dt * (0.4 + 0.6 * radius_seed p))
      (particles self) (particles self') /\
    (level_index self = 2%Z -> dt = 1 / 60 ->
     Forall2 (fun p p' =>
                no_wrap (1 / 60) 200.0 p ->
                angle p' = angle p + 2.2 * (1 / 60) * swirl_variation p)
       (particles self) (particles self')).
Proof.
  intros Hwf Hlvl Hidx.
  destruct (update_step dt self g Hwf Hidx)
    as (lvl' & self' & Hlvl' & Hup & Hps & _).
  assert (lvl' = lvl) by congruence. subst lvl'.
  exists self'. split; [exact Hup|].
  pose proof (update_particles_pointwise dt (swirl lvl) (lift lvl)
                (base_radius lvl) (particles self) g) as Hall.
  rewrite <- Hps in Hall. split; [exact Hall|].
  intros H2 Hdt. subst dt.
  assert (Hl : lvl = mkLevel 2.2 200.0 180.0 0.26 (210, 220, 230)%Z).
  { unfold current_level in Hlvl. rewrite H2 in Hlvl.
    change (Some (mkLevel 2.2 200.0 180.0 0.26 (210, 220, 230)%Z) = Some lvl)
      in Hlvl.
    congruence. }
  subst lvl. cbn [swirl lift] in Hall.
  eapply Forall2_impl; [|exact Hall].
  intros p p' H Hnw. apply H. exact Hnw.
Qed.

Lemma update_tick_increments_witness :
  no_wrap (1 / 60) 200.0 particle_ground /\
  exists self',
    fst (update (1 / 60) sim_one_particle rng_half) = Some self' /\
    Forall2 (fun p p' =>
               no_wrap (1 / 60) 200.0 p ->
               angle p' = angle p + 2.2 * (1 / 60) * swirl_variation p /\
               altitude p' =
                 altitude p + 200.0 * (1 / 60) * (0.4 + 0.6 * radius_seed p))
      [particle_ground] (particles self') /\
    Forall2 (fun p p' =>
               no_wrap (1 / 60) 200.0 p ->
               angle p' = angle p + 2.2 * (1 / 60) * swirl_variation p)
      [particle_ground] (particles self').
Proof.
  split.
  - unfold no_wrap. rewrite MAX_TORNADO_HEIGHT_val. cbn. lra.
  - destruct (update_tick_increments (1 / 60) sim_one_particle rng_half
                (mkLevel 2.2 200.0 180.0 0.26 (210, 220, 230)%Z))
      as (self' & Hup & Hall & H2).
    + split; constructor.
    + reflexivity.
    + cbn. lia.
    + exists self'. split; [exact Hup|]. split; [exact Hall|].
      apply H2; reflexivity.
Defined.

(** ** Several calls of [update] *)





(** The sweep is the arithmetic-independent loop at real-valued
    debris. *)
Lemma sweep_is_gsweep (dt : R) (snapshot : list ref) :
  forall (h : Heap) (live : list ref),
  sweep dt snapshot h live =
    gsweep Debris (Debris_update dt) expired Debris_eqb snapshot h live.
Proof.
  assert (Hrem : forall h o l,
             list_remove h o l = glist_remove Debris Debris_eqb h o l).
  { intros h o l. induction l as [| r l IH]; [reflexivity|].
    cbn [list_remove glist_remove]. rewrite IH. reflexivity. }
  induction snapshot as [| r rest IH]; intros h live; [reflexivity|].
  cbn [sweep gsweep].
  change (gheap_set Debris h r (Debris_update dt (h r)))
    with (heap_set h r (Debris_update dt (h r))).
  destruct (expired (heap_set h r (Debris_update dt (h r)) r)).
  - rewrite (Hrem (heap_set h r (Debris_update dt (h r))) r live).
    destruct (glist_remove Debris Debris_eqb
                (heap_set h r (Debris_update dt (h r))) r live);
      [apply IH | reflexivity].
  - apply IH.
Qed.




(** ** A long frame *)

(** C1 at a four second frame at EF5: the particle on the ground starts
    in range, [update] lifts it to 1440 and wraps it once, to 900,
    which is above the tornado height of 540; [project] then raises, and
    so does the frame that draws it. *)
Theorem altitude_escapes_on_long_frame :
  let p' := fst (Particle_update 4 4.5 360 280 particle_ground rng_half) in
  0 <= altitude particle_ground <= IZR MAX_TORNADO_HEIGHT /\
  altitude p' = 900 /\
  ~ (0 <= altitude p' <= IZR MAX_TORNADO_HEIGHT) /\
  project 280 p' = None /\
  (exists self',
     fst (update 4 sim_ground_EF5 rng_half) = Some self' /\
     map altitude (particles self') = [900]) /\
  fst (frame 4 [] (true, sim_ground_EF5) rng_half) = None.
Proof.
  intros p'. destruct long_frame_tick as (H1 & H2 & H3 & H4). fold p' in H2, H3, H4.
  split; [exact H1|]. split; [exact H2|]. split; [exact H3|].
  split; [exact H4|].
  assert (Hps : fst (update_particles 4 4.5 360.0 280.0 [particle_ground]
                       rng_half) = [p']).
  { cbn [update_particles]. unfold bind, p'.
    replace 360.0 with 360 by lra. replace 280.0 with 280 by lra.
    destruct (Particle_update 4 4.5 360 280 particle_ground rng_half).
    reflexivity. }
  split.
  - destruct (update_step 4 sim_ground_EF5 rng_half)
      as (lvl & self' & Hlvl & Hup & Hp & _).
    + split; constructor.
    + cbn. lia.
    + exists self'. split; [exact Hup|].
      rewrite current_level_EF5 in Hlvl by reflexivity.
      injection Hlvl as <-.
      cbn [swirl lift base_radius particles sim_ground_EF5] in Hp.
      rewrite Hp, Hps. cbn [map]. rewrite H2. reflexivity.
  - unfold frame. cbn [handle_events fold_left fst snd].
    set (s0 := add_time sim_ground_EF5 4).
    destruct (update_step 4 s0 rng_half)
      as (lvl & self' & Hlvl & Hup & Hp & Hidx & _).
    + split; constructor.
    + cbn. lia.
    + rewrite current_level_EF5 in Hlvl by reflexivity.
      injection Hlvl as <-.
      cbn [swirl lift base_radius particles s0 add_time sim_ground_EF5] in Hp.
      rewrite Hps in Hp.
      unfold bind. destruct (update 4 s0 rng_half) as [o g1].
      cbn [fst] in Hup. subst o.
      assert (Hd : draw_particles self' = None).
      { unfold draw_particles.
        rewrite current_level_EF5 by (rewrite Hidx; reflexivity).
        cbn [base_radius]. rewrite Hp. cbn [project_all].
        replace 280.0 with 280 by lra. rewrite H4. reflexivity. }
      rewrite Hd. reflexivity.
Qed.

(** * Further properties of the code *)

(** ** Truncation *)

Lemma Int_part_bounds (v : R) : IZR (Int_part v) <= v < IZR (Int_part v) + 1.
Proof. destruct (base_Int_part v). lra. Qed.

Lemma Int_part_mono (u v : R) : u <= v -> (Int_part u <= Int_part v)%Z.
Proof.
  intros H. pose proof (Int_part_bounds u). pose proof (Int_part_bounds v).
  assert (Hlt : IZR (Int_part u) < IZR (Int_part v + 1))
    by (rewrite plus_IZR; lra).
  apply lt_IZR in Hlt. lia.
Qed.

Lemma Int_part_IZR (z : Z) : Int_part (IZR z) = z.
Proof. apply Int_part_val. lra. Qed.

Lemma py_int_IZR (z : Z) : py_int (IZR z) = z.
Proof.
  unfold py_int. destruct (Rle_dec 0 (IZR z)).
  - apply Int_part_IZR.
  - rewrite <- opp_IZR, Int_part_IZR. lia.
Qed.

Lemma py_int_mono (u v : R) : u <= v -> (py_int u <= py_int v)%Z.
Proof.
  intros H. unfold py_int.
  destruct (Rle_dec 0 u) as [Hu | Hu]; destruct (Rle_dec 0 v) as [Hv | Hv].
  - apply Int_part_mono; assumption.
  - lra.
  - pose proof (Int_part_mono 0 (- u) ltac:(lra)) as H1.
    pose proof (Int_part_mono 0 v Hv) as H2.
    rewrite (Int_part_IZR 0) in H1, H2. lia.
  - pose proof (Int_part_mono (- v) (- u) ltac:(lra)). lia.
Qed.

(** Truncation stays between integer bounds. *)
Lemma py_int_bounds (a b : Z) (v : R) :
  IZR a <= v <= IZR b -> (a <= py_int v <= b)%Z.
Proof.
  intros [Ha Hb]. pose proof (py_int_mono _ _ Ha). pose proof (py_int_mono _ _ Hb).
  rewrite py_int_IZR in *. lia.
Qed.

(** ** The level table *)

Lemma dict_get_In {A : Type} (d : list (string * A)) (k : string) (v : A) :
  dict_get d k = Some v -> In v (map snd d).
Proof.
  induction d as [| [k' v'] d IH]; cbn; [discriminate|].
  destruct (String.eqb k' k).
  - intros E. injection E as ->. left. reflexivity.
  - intros E. right. apply IH. exact E.
Qed.

(** X1: whichever level is current, its parameters are inside the
    table's ranges: swirl in [[1.2, 4.5]], lift in [[120, 360]], base
    radius in [[130, 280]], debris probability in [[0.12, 0.60]], and a
    colour with channels in [[180, 255]]. *)
Theorem current_level_bounds (self : TornadoSimulator) (lvl : Level) :
  current_level self = Some lvl ->
  1.2 <= swirl lvl <= 4.5 /\
  120 <= lift lvl <= 360 /\
  130 <= base_radius lvl <= 280 /\
  0.12 <= debris lvl <= 0.60 /\
  (let '(cr, cg, cb) := color lvl in
   180 <= cr <= 255 /\ 180 <= cg <= 255 /\ 180 <= cb <= 255)%Z.
Proof.
  unfold current_level.
  destruct (py_index level_names (level_index self)) as [name|]; [|discriminate].
  intros H. apply dict_get_In in H. cbn [EF_LEVELS map snd In] in H.
  repeat (destruct H as [<- | H]; [cbn; repeat split; try lra; lia|]).
  contradiction.
Qed.

Lemma current_level_bounds_witness :
  1.2 <= 2.2 <= 4.5 /\
  120 <= 200.0 <= 360 /\
  130 <= 180.0 <= 280 /\
  0.12 <= 0.26 <= 0.60 /\
  (180 <= 210 <= 255 /\ 180 <= 220 <= 255 /\ 180 <= 230 <= 255)%Z.
Proof.
  exact (current_level_bounds (sim_at 2)
           (mkLevel 2.2 200.0 180.0 0.26 (210, 220, 230)%Z) eq_refl).
Defined.

(** X2: [current_level] is defined exactly for the indices Python
    accepts on a six element list, [-6 <= level_index < 6]; any other
    index raises. *)
Theorem current_level_defined_iff (self : TornadoSimulator) :
  current_level self <> None <-> (-6 <= level_index self < 6)%Z.
Proof.
  unfold current_level, py_index. rewrite level_count.
  set (i := level_index self). split.
  - intros H.
    destruct (i <? 0)%Z eqn:Eneg.
    + destruct (i + 6 <? 0)%Z eqn:Elow; [contradiction H; reflexivity | lia].
    + destruct (Z_lt_ge_dec i 6) as [Hlt | Hge]; [lia|].
      exfalso. apply H.
      assert (E : nth_error level_names (Z.to_nat i) = None).
      { apply nth_error_None. change (List.length level_names) with 6%nat. lia. }
      rewrite E. reflexivity.
  - intros Hr.
    assert (Hc : (i = -6 \/ i = -5 \/ i = -4 \/ i = -3 \/ i = -2 \/ i = -1 \/
                  i = 0 \/ i = 1 \/ i = 2 \/ i = 3 \/ i = 4 \/ i = 5)%Z) by lia.
    repeat (destruct Hc as [-> | Hc]; [cbn; discriminate|]).
    subst i. rewrite Hc. cbn. discriminate.
Qed.

(** ** Events *)

Lemma handle_events_cons (e : Event) (events : list Event)
    (st : bool * TornadoSimulator) :
  handle_events (e :: events) st = handle_events events (handle_event e st).
Proof. reflexivity. Qed.

Lemma handle_event_running (e : Event) (running : bool) (self : TornadoSimulator) :
  fst (handle_event e (running, self)) =
    running && negb (match e with
                     | QUIT => true
                     | KEYDOWN key => (key =? K_ESCAPE)%Z
                     | OTHER => false
                     end).
Proof.
  destruct e as [| key |]; cbn [handle_event fst].
  - rewrite andb_false_r. reflexivity.
  - destruct (key =? K_ESCAPE)%Z; cbn [fst negb].
    + rewrite andb_false_r. reflexivity.
    + rewrite andb_true_r.
      destruct ((key =? K_SPACE)%Z || (key =? K_RETURN)%Z); [reflexivity|].
      destruct ((K_0 <=? key)%Z && (key <=? K_5)%Z); reflexivity.
  - rewrite andb_true_r. reflexivity.
Qed.

(** An event changes nothing but [running] and the level index. *)
Lemma handle_event_frame (e : Event) (running : bool) (self : TornadoSimulator) :
  exists i,
    snd (handle_event e (running, self)) = set_level_index self i /\
    ((0 <= level_index self < 6)%Z -> (0 <= i < 6)%Z).
Proof.
  assert (Hid : self = set_level_index self (level_index self))
    by (destruct self; reflexivity).
  destruct e as [| key |]; cbn [handle_event snd].
  - exists (level_index self). split; [exact Hid | tauto].
  - rewrite level_count.
    destruct (key =? K_ESCAPE)%Z; cbn [snd].
    + exists (level_index self). split; [exact Hid | tauto].
    + destruct ((key =? K_SPACE)%Z || (key =? K_RETURN)%Z); cbn [snd].
      * eexists. split; [reflexivity|]. intros _.
        apply Z.mod_pos_bound. lia.
      * destruct ((K_0 <=? key)%Z && (key <=? K_5)%Z) eqn:E; cbn [snd].
        -- eexists. split; [reflexivity|]. intros _.
           apply andb_prop in E. unfold K_0, K_5 in *. lia.
        -- exists (level_index self). split; [exact Hid | tauto].
  - exists (level_index self). split; [exact Hid | tauto].
Qed.

Lemma handle_events_frame (events : list Event) :
  forall (running : bool) (self : TornadoSimulator),
  exists i,
    snd (handle_events events (running, self)) = set_level_index self i /\
    ((0 <= level_index self < 6)%Z -> (0 <= i < 6)%Z).
Proof.
  induction events as [| e events IH]; intros running self.
  - exists (level_index self). split; [destruct self; reflexivity | tauto].
  - rewrite handle_events_cons.
    destruct (handle_event_frame e running self) as (i & Ei & Hi).
    destruct (handle_event e (running, self)) as [running1 self1].
    cbn [snd] in Ei. subst self1.
    destruct (IH running1 (set_level_index self i)) as (k & Ek & Hk).
    exists k. split; [rewrite Ek; reflexivity|].
    intros H. apply Hk. cbn. apply Hi. exact H.
Qed.

(** X3: the events of a frame change nothing but [running] and the
    level index, and a level index inside the table stays inside it, so
    that [current_level] is defined afterwards. *)
Theorem events_keep_level_in_range (events : list Event) (running : bool)
    (self : TornadoSimulator) :
  (0 <= level_index self < 6)%Z ->
  let self' := snd (handle_events events (running, self)) in
  (0 <= level_index self' < 6)%Z /\
  (exists lvl, current_level self' = Some lvl) /\
  particles self' = particles self /\
  debris_particles self' = debris_particles self /\
  debris_heap self' = debris_heap self /\
  next_ref self' = next_ref self /\
  time self' = time self.
Proof.
  intros H self'.
  destruct (handle_events_frame events running self) as (i & Ei & Hi).
  fold self' in Ei. rewrite Ei. cbn.
  split; [exact (Hi H)|]. split; [|repeat split].
  apply current_level_in_range. cbn. exact (Hi H).
Qed.

Lemma events_keep_level_in_range_witness :
  let self' := snd (handle_events [KEYDOWN K_SPACE; KEYDOWN 57; QUIT; KEYDOWN K_5]
                      (true, sim_at 2)) in
  (0 <= level_index self' < 6)%Z /\
  (exists lvl, current_level self' = Some lvl) /\
  particles self' = particles (sim_at 2) /\
  debris_particles self' = debris_particles (sim_at 2) /\
  debris_heap self' = debris_heap (sim_at 2) /\
  next_ref self' = next_ref (sim_at 2) /\
  time self' = time (sim_at 2).
Proof.
  apply (events_keep_level_in_range
           [KEYDOWN K_SPACE; KEYDOWN 57; QUIT; KEYDOWN K_5] true (sim_at 2)).
  cbn. lia.
Defined.

(** X4: [running] is still true after the events of a frame exactly
    when it was true before and none of them is a quit event or the
    escape key; once false it is never set again. *)
Theorem running_after_events (events : list Event) (running : bool)
    (self : TornadoSimulator) :
  fst (handle_events events (running, self)) = true <->
  running = true /\ ~ In QUIT events /\ ~ In (KEYDOWN K_ESCAPE) events.
Proof.
  revert running self. induction events as [| e events IH]; intros running self.
  - cbn. tauto.
  - rewrite handle_events_cons.
    pose proof (handle_event_running e running self) as Hr.
    destruct (handle_event e (running, self)) as [running1 self1].
    cbn [fst] in Hr. rewrite IH, Hr. cbn [In].
    destruct e as [| key |].
    + rewrite andb_false_r. split; [intros [F _]; discriminate|].
      intros (_ & H & _). exfalso. apply H. left. reflexivity.
    + destruct (Z.eqb_spec key K_ESCAPE) as [-> | Hne]; cbn [negb].
      * rewrite andb_false_r. split; [intros [F _]; discriminate|].
        intros (_ & _ & H). exfalso. apply H. left. reflexivity.
      * rewrite andb_true_r. split.
        -- intros (H1 & H2 & H3). split; [exact H1|]. split.
           ++ intros [F | F]; [discriminate | contradiction].
           ++ intros [F | F]; [injection F as F; congruence | contradiction].
        -- intros (H1 & H2 & H3). split; [exact H1|]. split.
           ++ intros F. apply H2. right. exact F.
           ++ intros F. apply H3. right. exact F.
    + rewrite andb_true_r. split.
      * intros (H1 & H2 & H3). split; [exact H1|]. split.
        -- intros [F | F]; [discriminate | contradiction].
        -- intros [F | F]; [discriminate | contradiction].
      * intros (H1 & H2 & H3). split; [exact H1|]. split.
        -- intros F. apply H2. right. exact F.
        -- intros F. apply H3. right. exact F.
Qed.

(** X5: six presses of the "next level" key bring a simulator whose
    level index is inside the table back to where it was. *)
Theorem six_presses_cycle (running : bool) (self : TornadoSimulator) :
  (0 <= level_index self < 6)%Z ->
  handle_events (repeat (KEYDOWN K_SPACE) 6) (running, self) = (running, self).
Proof.
  intros H. cbn. f_equal. destruct self as [ps h n l i t]. cbn in *.
  unfold set_level_index. cbn. f_equal.
  assert (Hc : (i = 0 \/ i = 1 \/ i = 2 \/ i = 3 \/ i = 4 \/ i = 5)%Z) by lia.
  destruct Hc as [-> | [-> | [-> | [-> | [-> | ->]]]]]; reflexivity.
Qed.

Lemma six_presses_cycle_witness :
  handle_events (repeat (KEYDOWN K_SPACE) 6) (true, sim_at 4) = (true, sim_at 4).
Proof.
  apply (six_presses_cycle true (sim_at 4)). cbn. lia.
Defined.

(** ** Projection onto the canvas *)

Lemma Rpower_le_1 (u e : R) : 0 < u <= 1 -> 0 <= e -> Rpower u e <= 1.
Proof.
  intros Hu He.
  assert (E1 : Rpower 1 e = 1).
  { unfold Rpower. rewrite ln_1, Rmult_0_r. apply exp_0. }
  apply Rle_trans with (Rpower 1 e); [apply Rle_Rpower_l; lra | right; exact E1].
Qed.

Lemma height_ratio_range (a : R) :
  0 <= a <= IZR MAX_TORNADO_HEIGHT ->
  0 <= a / IZR MAX_TORNADO_HEIGHT <= 1.
Proof.
  rewrite MAX_TORNADO_HEIGHT_val. intros H. split.
  - apply Rmult_le_pos; [lra|]. left. apply Rinv_0_lt_compat. lra.
  - apply (Rmult_le_reg_r 540); [lra|]. unfold Rdiv.
    rewrite Rmult_assoc, Rinv_l by lra. lra.
Qed.

(** Inside the tornado the radius is between 0 and the base radius. *)
Lemma lerp_radius_le_base (seed base h r : R) :
  0.2 <= seed <= 1.0 -> 0 < base -> 0 <= h <= 1 ->
  lerp_radius seed base h = Some r -> 0 <= r <= base.
Proof.
  intros Hs Hb Hh E.
  destruct (Rlt_dec h 1) as [Hlt | Hge].
  - rewrite lerp_radius_below_top in E by assumption. injection E as <-.
    pose proof (Rpower_pos (1 - h) (neck_exponent seed)) as Hp.
    assert (He : 0 <= neck_exponent seed) by (unfold neck_exponent; lra).
    pose proof (Rpower_le_1 (1 - h) (neck_exponent seed) ltac:(lra) He) as Hl.
    set (q := Rpower (1 - h) (neck_exponent seed)) in *.
    assert (0 < base * q) by (apply Rmult_lt_0_compat; assumption).
    assert (base * q <= base) by nra.
    split; nra.
  - assert (h = 1) by lra. subst h.
    rewrite lerp_radius_top in E by assumption. injection E as <-. lra.
Qed.

(** X6: a particle inside the tornado is projected onto the canvas, for
    every base radius of the level table: [x] within 280 pixels of the
    centre, [y] between the top of the tornado (72) and the ground
    (612), and a render size from 1 to 5. *)
Theorem project_on_canvas (br : R) (p : Particle) :
  0 <= altitude p <= IZR MAX_TORNADO_HEIGHT ->
  0.2 <= radius_seed p <= 1.0 ->
  0 < br <= 280 ->
  exists px py size,
    project br p = Some (px, py, size) /\
    (200 <= px <= 760)%Z /\ (72 <= py <= 612)%Z /\ (1 <= size <= 5)%Z /\
    (0 <= px - size)%Z /\ (px + size < WIDTH)%Z /\
    (0 <= py - size)%Z /\ (py + size < HEIGHT)%Z.
Proof.
  intros Ha Hs Hb.
  destruct (project_in_range br p Ha Hs) as (r & Er & E).
  destruct (render_size_truncates br p Ha Hs) as (_ & _ & Hsize).
  apply lerp_radius_le_base in Er;
    [| assumption | lra | apply height_ratio_range; assumption].
  pose proof (COS_bound (angle p)) as [Hc1 Hc2].
  assert (Hx : (200 <= py_int (IZR CENTER_X + cos (angle p) * r) <= 760)%Z).
  { apply py_int_bounds. replace CENTER_X with 480%Z by reflexivity.
    assert (- r <= cos (angle p) * r <= r) by nra. lra. }
  assert (Hy : (72 <= py_int (IZR GROUND_Y - altitude p) <= 612)%Z).
  { apply py_int_bounds. rewrite GROUND_Y_val.
    rewrite MAX_TORNADO_HEIGHT_val in Ha. lra. }
  do 3 eexists. split; [exact E|].
  unfold WIDTH, HEIGHT. repeat split; lia.
Qed.

Lemma project_on_canvas_witness :
  exists px py size,
    project 180 particle_tenth = Some (px, py, size) /\
    (200 <= px <= 760)%Z /\ (72 <= py <= 612)%Z /\ (1 <= size <= 5)%Z /\
    (0 <= px - size)%Z /\ (px + size < WIDTH)%Z /\
    (0 <= py - size)%Z /\ (py + size < HEIGHT)%Z.
Proof.
  apply (project_on_canvas 180 particle_tenth).
  - rewrite MAX_TORNADO_HEIGHT_val. cbn. lra.
  - cbn. lra.
  - lra.
Defined.

(** X7: for a radius seed in range and a non-negative altitude,
    [project] raises exactly when the particle is above the tornado
    height. *)
Theorem project_raises_iff (br : R) (p : Particle) :
  0.2 <= radius_seed p <= 1.0 ->
  0 <= altitude p ->
  (project br p = None <-> IZR MAX_TORNADO_HEIGHT < altitude p).
Proof.
  intros Hs Ha. split.
  - intros E.
    destruct (Rlt_dec (IZR MAX_TORNADO_HEIGHT) (altitude p)) as [H | H];
      [exact H|].
    destruct (project_in_range br p ltac:(lra) Hs) as (r & _ & E').
    congruence.
  - intros H. apply project_above_top; assumption.
Qed.

Lemma project_raises_iff_witness :
  project 180 particle_tenth = None <->
  IZR MAX_TORNADO_HEIGHT < altitude particle_tenth.
Proof.
  apply (project_raises_iff 180 particle_tenth); cbn; lra.
Defined.

(** ** Construction *)

Lemma Particle_random_rng (g : Rng) :
  snd (Particle_random g) = fun n => g (S (S (S (S (S n))))).
Proof. reflexivity. Qed.

Lemma random_particles_spec (n : nat) :
  forall g : Rng,
  rng_ok g ->
  List.length (fst (random_particles n g)) = n /\
  rng_ok (snd (random_particles n g)) /\
  Forall (fun p => particle_ok p /\ 0 <= angle p < tau /\
                   0.6 <= swirl_variation p < 1.4)
    (fst (random_particles n g)).
Proof.
  induction n as [| n IH]; intros g Hg.
  - cbn [random_particles ret fst snd].
    split; [reflexivity|]. split; [exact Hg | constructor].
  - cbn [random_particles]. unfold bind.
    pose proof (Particle_random_ranges g Hg) as Hr.
    pose proof (Particle_random_rng g) as Hs.
    destruct (Particle_random g) as [p g1]. cbn [fst snd] in Hr, Hs.
    assert (Hg1 : rng_ok g1) by (subst g1; intros k; apply Hg).
    specialize (IH g1 Hg1).
    destruct (random_particles n g1) as [ps g2]. cbn [fst snd ret] in *.
    destruct IH as (Hl & Hg2 & Hall).
    split; [cbn; lia|]. split; [exact Hg2|].
    constructor; [|exact Hall].
    unfold particle_ok. repeat split; lra.
Qed.

(** X8: construction yields 220 particles, each with altitude in
    [[0, 540)], radius seed in [[0.2, 1.0]], angle in [[0, 2 pi)], swirl
    variation in [[0.6, 1.4]] and brightness in [[0.5, 1.0]], no debris,
    and no elapsed time. *)
Theorem init_pool (g : Rng) :
  rng_ok g ->
  let self := fst (init g) in
  List.length (particles self) = 220%nat /\
  Forall (fun p => 0 <= altitude p < IZR MAX_TORNADO_HEIGHT /\
                   0.2 <= radius_seed p <= 1.0 /\
                   0 <= angle p < tau /\
                   0.6 <= swirl_variation p <= 1.4 /\
                   0.5 <= brightness p <= 1.0) (particles self) /\
  debris_particles self = [] /\ time self = 0 /\ sim_ok self.
Proof.
  intros Hg. unfold init, bind.
  destruct (random_particles_spec PARTICLES_PER_LEVEL g Hg) as (Hl & _ & Hall).
  assert (Hstrict : Forall (fun p => altitude p < IZR MAX_TORNADO_HEIGHT)
                      (fst (random_particles PARTICLES_PER_LEVEL g))).
  { clear Hl Hall. revert g Hg. generalize PARTICLES_PER_LEVEL.
    induction n as [| n IH]; intros g Hg; [constructor|].
    cbn [random_particles]. unfold bind.
    pose proof (Particle_random_ranges g Hg) as Hr.
    pose proof (Particle_random_rng g) as Hs.
    destruct (Particle_random g) as [p g1]. cbn [fst snd] in Hr, Hs.
    assert (Hg1 : rng_ok g1) by (subst g1; intros k; apply Hg).
    specialize (IH g1 Hg1).
    destruct (random_particles n g1) as [ps g2]. cbn [fst snd ret] in *.
    constructor; [|exact IH]. lra. }
  destruct (random_particles PARTICLES_PER_LEVEL g) as [ps g1].
  cbn [fst snd ret particles debris_particles time] in *.
  split; [exact Hl|]. split.
  - rewrite Forall_forall in *. intros p Hp.
    destruct (Hall p Hp) as ((Ha & Hs & Hb) & Han & Hsv).
    pose proof (Hstrict p Hp). repeat split; lra.
  - split; [reflexivity|]. split; [lra|].
    unfold sim_ok, debris_wf. cbn.
    repeat split; try constructor; try lia.
    eapply Forall_impl; [|exact Hall]. cbn. tauto.
Qed.

Lemma init_pool_witness :
  let self := fst (init rng_half) in
  List.length (particles self) = 220%nat /\
  Forall (fun p => 0 <= altitude p < IZR MAX_TORNADO_HEIGHT /\
                   0.2 <= radius_seed p <= 1.0 /\
                   0 <= angle p < tau /\
                   0.6 <= swirl_variation p <= 1.4 /\
                   0.5 <= brightness p <= 1.0) (particles self) /\
  debris_particles self = [] /\ time self = 0 /\ sim_ok self.
Proof.
  apply (init_pool rng_half). intros n. unfold rng_half. lra.
Defined.

(** ** Debris: spawning and ageing *)

Lemma Debris_spawn_eq (g : Rng) :
  Debris_spawn g =
    (mkDebris
       (IZR CENTER_X + cos (0 + (tau - 0) * g 0%nat) * (10 + (80 - 10) * g 2%nat))
       (IZR GROUND_Y - (5 + (20 - 5) * g 3%nat))
       (cos (0 + (tau - 0) * g 0%nat) * (80 + (220 - 80) * g 1%nat))
       (- (30 + (160 - 30) * g 4%nat))
       (0.6 + (1.4 - 0.6) * g 5%nat),
     fun n => g (S (S (S (S (S (S n))))))).
Proof. reflexivity. Qed.

(** X9: a spawned debris object starts within 80 pixels of the centre,
    5 to 20 pixels above the ground line, moving upwards at 30 to 160
    and sideways at no more than 220 units per second, with a lifetime
    in [[0.6, 1.4]]; it is not expired when it is spawned. *)
Theorem Debris_spawn_ranges (g : Rng) :
  rng_ok g ->
  let d := fst (Debris_spawn g) in
  Rabs (x d - IZR CENTER_X) <= 80 /\
  IZR GROUND_Y - 20 <= y d <= IZR GROUND_Y - 5 /\
  Rabs (velocity_x d) <= 220 /\
  -160 <= velocity_y d <= -30 /\
  0.6 <= lifetime d <= 1.4 /\
  expired d = false.
Proof.
  intros Hg. rewrite Debris_spawn_eq.
  cbn [fst x y velocity_x velocity_y lifetime].
  pose proof (Hg 1%nat). pose proof (Hg 2%nat). pose proof (Hg 3%nat).
  pose proof (Hg 4%nat). pose proof (Hg 5%nat).
  pose proof (COS_bound (0 + (tau - 0) * g 0%nat)) as [Hc1 Hc2].
  set (c := cos (0 + (tau - 0) * g 0%nat)) in *.
  assert (Hx : Rabs (IZR CENTER_X + c * (10 + (80 - 10) * g 2%nat) - IZR CENTER_X) <= 80).
  { left. apply Rabs_def1; nra. }
  assert (Hv : Rabs (c * (80 + (220 - 80) * g 1%nat)) <= 220).
  { left. apply Rabs_def1; nra. }
  rewrite GROUND_Y_val.
  repeat split; try assumption; try lra.
  unfold expired. cbn [lifetime y]. rewrite HEIGHT_val.
  destruct (Rle_dec _ 0); [lra|]. destruct (Rgt_dec _ 720); [lra | reflexivity].
Qed.

Lemma Debris_spawn_ranges_witness :
  let d := fst (Debris_spawn rng_half) in
  Rabs (x d - IZR CENTER_X) <= 80 /\
  IZR GROUND_Y - 20 <= y d <= IZR GROUND_Y - 5 /\
  Rabs (velocity_x d) <= 220 /\
  -160 <= velocity_y d <= -30 /\
  0.6 <= lifetime d <= 1.4 /\
  expired d = false.
Proof.
  apply (Debris_spawn_ranges rng_half). intros n. unfold rng_half. lra.
Defined.

(** ** One call of [update], in full *)

Lemma particle_ok_tick (dt sw lf br : R) (p : Particle) (g : Rng) :
  rng_ok g -> 0 <= lf * dt <= IZR MAX_TORNADO_HEIGHT -> particle_ok p ->
  particle_ok (fst (Particle_update dt sw lf br p g)).
Proof.
  intros Hg Hstep (Ha & Hs & Hb).
  assert (Hc : 0 <= climb dt lf p <= IZR MAX_TORNADO_HEIGHT).
  { unfold climb. rewrite MAX_TORNADO_HEIGHT_val in *. nra. }
  split; [apply Particle_update_altitude_small_step; assumption|].
  destruct (no_wrap_dec dt lf p) as [H | H].
  - rewrite Particle_update_no_wrap by assumption. cbn. split; assumption.
  - destruct (Particle_update_wrap_reseeds dt sw lf br p g Hg H)
      as (_ & _ & _ & Hr & Hbr).
    split; lra.
Qed.

Lemma update_particles_ok (dt sw lf br : R) (ps : list Particle) :
  0 <= lf * dt <= IZR MAX_TORNADO_HEIGHT ->
  forall g : Rng,
  rng_ok g -> Forall particle_ok ps ->
  Forall particle_ok (fst (update_particles dt sw lf br ps g)) /\
  rng_ok (snd (update_particles dt sw lf br ps g)).
Proof.
  intros Hstep. induction ps as [| p ps IH]; intros g Hg Hall.
  - cbn. split; [constructor | exact Hg].
  - inversion Hall as [| p' ps' Hp Hps]; subst.
    cbn [update_particles]. unfold bind.
    pose proof (particle_ok_tick dt sw lf br p g Hg Hstep Hp) as Hp1.
    pose proof (Particle_update_rng_ok dt sw lf br p g Hg) as Hg1.
    destruct (Particle_update dt sw lf br p g) as [p1 g1]. cbn [fst snd] in *.
    destruct (IH g1 Hg1 Hps) as [Hall1 Hg2].
    destruct (update_particles dt sw lf br ps g1) as [ps1 g2].
    cbn [fst snd ret] in *. split; [constructor; assumption | exact Hg2].
Qed.

(** The pool is fixed: [update] neither adds nor drops particles, and
    keeps each swirl variation. *)
Lemma update_particles_pool (dt sw lf br : R) (ps : list Particle) :
  forall g : Rng,
  List.length (fst (update_particles dt sw lf br ps g)) = List.length ps /\
  map swirl_variation (fst (update_particles dt sw lf br ps g)) =
    map swirl_variation ps.
Proof.
  induction ps as [| p ps IH]; intros g; [split; reflexivity|].
  cbn [update_particles]. unfold bind.
  pose proof (Particle_update_swirl_variation dt sw lf br p g) as Hs.
  destruct (Particle_update dt sw lf br p g) as [p1 g1]. cbn [fst] in Hs.
  destruct (IH g1) as [Hl Hm].
  destruct (update_particles dt sw lf br ps g1) as [ps1 g2].
  cbn [fst ret] in *. cbn. rewrite Hl, Hm, Hs. split; reflexivity.
Qed.

(** What [update] returns on a well-formed debris list, spelled out:
    [live] is the list after the spawn step and [h] the store then. *)
Lemma update_unfold (dt : R) (self : TornadoSimulator) (g : Rng) :
  debris_wf self -> (0 <= level_index self < 6)%Z ->
  exists lvl h live nxt,
    current_level self = Some lvl /\
    fst (update dt self g) =
      Some (mkSim
              (fst (update_particles dt (swirl lvl) (lift lvl) (base_radius lvl)
                      (particles self) g))
              (heap_update_all dt live h) nxt
              (filter (alive_after dt h) live)
              (level_index self) (time self)) /\
    NoDup live /\
    Forall (fun r => (r < nxt)%nat) live /\
    (List.length live <= S (List.length (debris_particles self)))%nat /\
    (rng_ok g ->
     rng_ok (snd (update_particles dt (swirl lvl) (lift lvl) (base_radius lvl)
                    (particles self) g)) ->
     rng_ok (snd (update dt self g))).
Proof.
  intros [Hnd Hlt] Hidx.
  destruct (current_level_in_range self Hidx) as [lvl Hlvl].
  exists lvl. unfold update. rewrite Hlvl. unfold bind.
  destruct (update_particles dt (swirl lvl) (lift lvl) (base_radius lvl)
              (particles self) g) as [ps g1].
  unfold random. destruct (Rlt_dec (g1 0%nat) (debris lvl)) as [Hsp | Hsp].
  - rewrite Debris_spawn_eq. unfold ret.
    set (n0 := next_ref self). set (L := debris_particles self).
    match goal with
    | |- context [heap_set (debris_heap self) n0 ?d0] =>
        set (h0 := heap_set (debris_heap self) n0 d0)
    end.
    assert (Hfresh : ~ In n0 L).
    { intros Hin. rewrite Forall_forall in Hlt. apply Hlt in Hin.
      unfold n0 in Hin. lia. }
    assert (Hnd' : NoDup (L ++ [n0])).
    { apply NoDup_app; [exact Hnd | repeat constructor; intros [] |].
      intros a Ha [<- | []]. contradiction. }
    assert (Hlt' : Forall (fun r => (r < S n0)%nat) (L ++ [n0])).
    { apply Forall_app. split.
      - eapply Forall_impl; [|exact Hlt]. cbn. intros a Ha. unfold n0. lia.
      - repeat constructor. }
    rewrite (sweep_spec dt h0 (L ++ [n0]) Hnd').
    exists h0, (L ++ [n0]), (S n0). cbn [fst snd].
    split; [reflexivity|]. split; [reflexivity|].
    split; [exact Hnd'|]. split; [exact Hlt'|].
    split; [rewrite length_app; cbn; lia|].
    intros _ Hg1 k. apply Hg1.
  - unfold ret.
    rewrite (sweep_spec dt (debris_heap self) (debris_particles self) Hnd).
    exists (debris_heap self), (debris_particles self), (next_ref self).
    cbn [fst snd].
    split; [reflexivity|]. split; [reflexivity|].
    split; [exact Hnd|]. split; [exact Hlt|]. split; [lia|].
    intros _ Hg1 k. apply Hg1.
Qed.

(** X11: after a call of [update] on a well-formed debris list, no
    listed debris object is expired (each has [lifetime > 0] and
    [y <= HEIGHT]), the list is still well formed and has grown by at
    most one object; the particle pool has the same size and swirl
    variations, and level index and time are untouched. *)
Theorem update_keeps_debris_alive (dt : R) (self : TornadoSimulator) (g : Rng) :
  debris_wf self -> (0 <= level_index self < 6)%Z ->
  exists self',
    fst (update dt self g) = Some self' /\
    Forall (fun r => 0 < lifetime (debris_heap self' r) /\
                     y (debris_heap self' r) <= IZR HEIGHT)
      (debris_particles self') /\
    debris_wf self' /\
    (List.length (debris_particles self')
       <= S (List.length (debris_particles self)))%nat /\
    List.length (particles self') = List.length (particles self) /\
    map swirl_variation (particles self') = map swirl_variation (particles self) /\
    level_index self' = level_index self /\
    time self' = time self.
Proof.
  intros Hwf Hidx.
  destruct (update_unfold dt self g Hwf Hidx)
    as (lvl & h & live & nxt & _ & E & Hnd & Hlt & Hlen & _).
  eexists. split; [exact E|].
  cbn [particles debris_heap debris_particles next_ref level_index time].
  destruct (update_particles_pool dt (swirl lvl) (lift lvl) (base_radius lvl)
              (particles self) g) as [Hl Hm].
  destruct (sweep_result_props dt h live nxt Hnd Hlt) as (R1 & R2 & R3).
  split; [|split; [split; assumption|]].
  - rewrite Forall_forall. intros r Hin.
    destruct (R3 r) as [Ra Rb]. apply Ra in Hin. destruct Hin as [Hin Halive].
    rewrite (Rb Hin). unfold alive_after in Halive.
    apply negb_true_iff in Halive.
    destruct (Rle_dec (lifetime (Debris_update dt (h r))) 0) as [H1 | H1].
    + assert (expired (Debris_update dt (h r)) = true)
        by (apply expired_iff; left; exact H1).
      congruence.
    + destruct (Rgt_dec (y (Debris_update dt (h r))) (IZR HEIGHT)) as [H2 | H2].
      * assert (expired (Debris_update dt (h r)) = true)
          by (apply expired_iff; right; exact H2).
        congruence.
      * split; lra.
  - split.
    + pose proof (filter_length_le (alive_after dt h) live). lia.
    + repeat split; assumption.
Qed.

Lemma update_keeps_debris_alive_witness :
  exists self',
    fst (update 0.5 sim_one_debris rng_half) = Some self' /\
    Forall (fun r => 0 < lifetime (debris_heap self' r) /\
                     y (debris_heap self' r) <= IZR HEIGHT)
      (debris_particles self') /\
    debris_wf self' /\
    (List.length (debris_particles self')
       <= S (List.length (debris_particles sim_one_debris)))%nat /\
    List.length (particles self') = List.length (particles sim_one_debris) /\
    map swirl_variation (particles self')
      = map swirl_variation (particles sim_one_debris) /\
    level_index self' = level_index sim_one_debris /\
    time self' = time sim_one_debris.
Proof.
  apply (update_keeps_debris_alive 0.5 sim_one_debris rng_half).
  - split; cbn.
    + constructor; [intros [] | constructor].
    + constructor; [lia | constructor].
  - cbn. lia.
Defined.

(** ** Loops whose body may raise *)

Lemma map_option_map {A B : Type} (f : A -> option B) (g : A -> B) (l : list A) :
  (forall a, In a l -> f a = Some (g a)) ->
  map_option f l = Some (map g l).
Proof.
  induction l as [| a l IH]; intros H; [reflexivity|].
  cbn [map_option map]. rewrite (H a) by (left; reflexivity).
  rewrite IH; [reflexivity|]. intros b Hb. apply H. right. exact Hb.
Qed.

Lemma map_option_none_iff {A B : Type} (f : A -> option B) (l : list A) :
  map_option f l = None <-> exists a, In a l /\ f a = None.
Proof.
  induction l as [| a l IH]; cbn [map_option In].
  - split; [discriminate | intros (a & [] & _)].
  - destruct (f a) as [b |] eqn:Ea.
    + destruct (map_option f l) as [bs |].
      * split; [discriminate|]. intros (c & [-> | Hc] & Ec); [congruence|].
        destruct IH as [_ IH2].
        specialize (IH2 (ex_intro _ c (conj Hc Ec))). discriminate.
      * split; [|reflexivity]. intros _.
        destruct IH as [IH1 _]. destruct (IH1 eq_refl) as (c & Hc & Ec).
        exists c. split; [right; exact Hc | exact Ec].
    + split; [|reflexivity]. intros _. exists a. split; [left; reflexivity | exact Ea].
Qed.

Lemma project_all_map_option (br : R) (ps : list Particle) :
  project_all br ps = map_option (project br) ps.
Proof.
  induction ps as [| p ps IH]; [reflexivity|].
  cbn [project_all map_option]. rewrite IH.
  destruct (project br p); [|reflexivity].
  destruct (map_option (project br) ps); reflexivity.
Qed.

Lemma Rpower_2 (u : R) : 0 < u -> Rpower u 2 = u * u.
Proof.
  intros H. replace 2 with (INR 2) by (cbn; lra).
  rewrite Rpower_pow by assumption. cbn. ring.
Qed.

Lemma range_down_In (n r : Z) : In r (range_down n) <-> (1 <= r <= n)%Z.
Proof.
  unfold range_down. rewrite in_map_iff. split.
  - intros (k & <- & Hk). apply in_seq in Hk. lia.
  - intros H. exists (Z.to_nat (n - r)). split; [lia|]. apply in_seq. lia.
Qed.

Lemma glow_alpha_some (alpha radius r : Z) :
  (1 <= r <= radius)%Z ->
  glow_alpha alpha radius r =
    Some (py_int (IZR alpha * (IZR r / IZR radius * (IZR r / IZR radius)))).
Proof.
  intros H. unfold glow_alpha.
  assert (0 < IZR r) by (apply IZR_lt; lia).
  assert (0 < IZR radius) by (apply IZR_lt; lia).
  assert (Hq : 0 < IZR r / IZR radius) by (apply Rdiv_lt_0_compat; assumption).
  rewrite py_pow_pos, Rpower_2 by assumption. reflexivity.
Qed.

Lemma body_ring_some (base : R) (layer : nat) :
  (layer < 40)%nat ->
  let t := INR layer / 40 in
  body_ring base layer =
    Some (py_int (100 * Rpower (1 - t) 1.8),
          (IZR CENTER_X
           - base * Rpower (1 - t) (neck_exponent (1 - t * 0.85))
             * (0.6 + 0.4 * (1 - t * 0.85)),
           IZR GROUND_Y - t * IZR MAX_TORNADO_HEIGHT - 30,
           base * Rpower (1 - t) (neck_exponent (1 - t * 0.85))
             * (0.6 + 0.4 * (1 - t * 0.85)) * 2,
           60)).
Proof.
  intros Hl t.
  assert (Ht : 0 <= t < 1).
  { unfold t. pose proof (pos_INR layer).
    assert (INR layer <= 39).
    { replace 39 with (INR 39) by (rewrite INR_IZR_INZ; reflexivity).
      apply le_INR. lia. }
    lra. }
  unfold body_ring. fold t.
  rewrite lerp_radius_below_top by lra.
  rewrite py_pow_pos by lra. reflexivity.
Qed.

(** ** Frames *)

Lemma handle_events_running (events : list Event) :
  forall (running : bool) (self : TornadoSimulator),
  fst (handle_events events (running, self)) =
    running &&
    forallb (fun e => negb (match e with
                            | QUIT => true
                            | KEYDOWN key => (key =? K_ESCAPE)%Z
                            | OTHER => false
                            end)) events.
Proof.
  induction events as [| e events IH]; intros running self.
  - cbn. rewrite andb_true_r. reflexivity.
  - rewrite handle_events_cons.
    pose proof (handle_event_running e running self) as Hr.
    destruct (handle_event e (running, self)) as [r1 s1]. cbn [fst] in Hr.
    rewrite IH, Hr. cbn [forallb]. rewrite andb_assoc. reflexivity.
Qed.

Lemma handle_events_quit (events : list Event) (running : bool)
    (self : TornadoSimulator) :
  In QUIT events \/ In (KEYDOWN K_ESCAPE) events ->
  fst (handle_events events (running, self)) = false.
Proof.
  intros H. rewrite handle_events_running.
  match goal with |- _ && forallb ?f _ = _ => set (ok := f) end.
  assert (E : forallb ok events = false).
  { destruct (forallb ok events) eqn:F; [|reflexivity].
    rewrite forallb_forall in F.
    destruct H as [H | H]; apply F in H; cbn in H; discriminate. }
  rewrite E. apply andb_false_r.
Qed.


Lemma current_level_lift (self : TornadoSimulator) (lvl : Level) :
  current_level self = Some lvl -> 120 <= lift lvl <= 360.
Proof.
  unfold current_level.
  destruct (py_index level_names (level_index self)) as [name|]; [|discriminate].
  intros H. apply dict_get_In in H. cbn [EF_LEVELS map snd In] in H.
  repeat (destruct H as [<- | H]; [cbn; lra|]).
  contradiction.
Qed.

Lemma draw_particles_ok (self : TornadoSimulator) :
  (0 <= level_index self < 6)%Z ->
  Forall particle_ok (particles self) ->
  exists vs, draw_particles self = Some vs.
Proof.
  intros Hidx Hall.
  destruct (current_level_in_range self Hidx) as [lvl Hlvl].
  unfold draw_particles. rewrite Hlvl, project_all_map_option.
  destruct (map_option (project (base_radius lvl)) (particles self)) as [vs |] eqn:E;
    [exists vs; reflexivity|].
  apply map_option_none_iff in E. destruct E as (p & Hin & E).
  rewrite Forall_forall in Hall. destruct (Hall p Hin) as (Ha & Hs & _).
  destruct (project_in_range (base_radius lvl) p Ha Hs) as (r & _ & E').
  congruence.
Qed.

(** One frame of at most a second and a half, from a safe state. *)
Lemma frame_step (dt : R) (events : list Event) (running : bool)
    (self : TornadoSimulator) (g : Rng) :
  sim_ok self -> rng_ok g -> 0 <= dt <= 1.5 ->
  exists self',
    fst (frame dt events (running, self) g) =
      Some (fst (handle_events events (running, self)), self') /\
    sim_ok self' /\
    rng_ok (snd (frame dt events (running, self) g)) /\
    time self' = time self + dt /\
    List.length (particles self') = List.length (particles self).
Proof.
  intros (Hwf & Hidx & Hall) Hg Hdt. unfold frame. cbn [fst snd].
  pose proof (handle_events_running events running (add_time self dt)) as Hrun.
  rewrite <- (handle_events_running events running self) in Hrun.
  destruct (handle_events_frame events running (add_time self dt))
    as (i & Ei & Hi).
  specialize (Hi Hidx).
  destruct (handle_events events (running, add_time self dt)) as [r1 s1].
  cbn [fst snd] in Hrun, Ei. subst r1 s1.
  set (s1 := set_level_index (add_time self dt) i).
  assert (Hwf1 : debris_wf s1) by exact Hwf.
  assert (Hidx1 : (0 <= level_index s1 < 6)%Z) by exact Hi.
  destruct (update_unfold dt s1 g Hwf1 Hidx1)
    as (lvl & h & live & nxt & Hlvl & E & Hnd & Hlt & _ & Hrng).
  pose proof (current_level_lift s1 lvl Hlvl) as Hlift.
  assert (Hstep : 0 <= lift lvl * dt <= IZR MAX_TORNADO_HEIGHT)
    by (rewrite MAX_TORNADO_HEIGHT_val; nra).
  destruct (update_particles_ok dt (swirl lvl) (lift lvl) (base_radius lvl)
              (particles s1) Hstep g Hg Hall) as [Hall1 Hg1].
  destruct (update_particles_pool dt (swirl lvl) (lift lvl) (base_radius lvl)
              (particles s1) g) as [Hlen _].
  specialize (Hrng Hg Hg1).
  destruct (sweep_result_props dt h live nxt Hnd Hlt) as (R1 & R2 & _).
  unfold bind. destruct (update dt s1 g) as [o g1]. cbn [fst snd] in E, Hrng.
  subst o.
  match goal with
  | |- context [draw_particles ?s] => set (s2 := s)
  end.
  assert (Hok2 : sim_ok s2).
  { unfold sim_ok, debris_wf, s2. cbn. repeat split; try assumption; apply Hi. }
  destruct (draw_particles_ok s2) as [vs Hvs];
    [apply Hok2 | apply Hok2 |].
  rewrite Hvs. unfold ret. cbn [fst snd].
  exists s2. split; [reflexivity|]. split; [exact Hok2|].
  split; [exact Hrng|]. split; [reflexivity | exact Hlen].
Qed.



(** X14: a quit event or the escape key ends the loop after the frame
    in which it arrives: that frame is still updated and drawn, and no
    later frame is. *)
Theorem run_stops_after_quit (dt : R) (events : list Event)
    (rest : list (R * list Event)) (self : TornadoSimulator) (g : Rng) :
  In QUIT events \/ In (KEYDOWN K_ESCAPE) events ->
  run ((dt, events) :: rest) (true, self) g = frame dt events (true, self) g /\
  forall st', fst (frame dt events (true, self) g) = Some st' -> fst st' = false.
Proof.
  intros Hq.
  assert (Hrun : forall st', fst (frame dt events (true, self) g) = Some st' ->
                             fst st' = false).
  { intros st'. unfold frame. cbn [fst snd].
    pose proof (handle_events_quit events true (add_time self dt) Hq) as Hr.
    destruct (handle_events events (true, add_time self dt)) as [r1 s1].
    cbn [fst] in Hr. subst r1. unfold bind.
    destruct (update dt s1 g) as [[s2 |] g1]; [|discriminate].
    destruct (draw_particles s2); [|discriminate].
    cbn. intros E. injection E as <-. reflexivity. }
  split; [|exact Hrun].
  cbn [run fst]. unfold bind.
  destruct (frame dt events (true, self) g) as [[st1 |] g1] eqn:E; [|reflexivity].
  specialize (Hrun st1 eq_refl). destruct st1 as [r1 s1]. cbn [fst] in Hrun.
  subst r1. destruct rest as [| [dt2 ev2] rest]; reflexivity.
Qed.

Lemma run_stops_after_quit_witness :
  run ((0.5, [QUIT]) :: [(0.5, [])]) (true, sim_at 2) rng_half
    = frame 0.5 [QUIT] (true, sim_at 2) rng_half /\
  forall st', fst (frame 0.5 [QUIT] (true, sim_at 2) rng_half) = Some st' ->
              fst st' = false.
Proof.
  apply (run_stops_after_quit 0.5 [QUIT] [(0.5, [])] (sim_at 2) rng_half).
  left. left. reflexivity.
Defined.

(** ** Colours *)

Lemma lerp_channel_bounds (a b : Z) (t : R) :
  0 <= t <= 1 -> (Z.min a b <= lerp_channel a b t <= Z.max a b)%Z.
Proof.
  intros Ht. unfold lerp_channel. apply py_int_bounds. rewrite minus_IZR.
  destruct (Z.le_ge_cases a b) as [H | H].
  - rewrite Z.min_l, Z.max_r by lia. apply IZR_le in H. nra.
  - rewrite Z.min_r, Z.max_l by lia. apply IZR_le in H. nra.
Qed.

Lemma lerp_channel_0 (a b : Z) : lerp_channel a b 0 = a.
Proof.
  unfold lerp_channel. replace (IZR a + IZR (b - a) * 0) with (IZR a) by ring.
  apply py_int_IZR.
Qed.

Lemma lerp_channel_1 (a b : Z) : lerp_channel a b 1 = b.
Proof.
  unfold lerp_channel.
  replace (IZR a + IZR (b - a) * 1) with (IZR b) by (rewrite minus_IZR; ring).
  apply py_int_IZR.
Qed.

Lemma lerp_between (ca cb : Color) (t : R) :
  0 <= t <= 1 -> color_between ca cb (lerp ca cb t).
Proof.
  intros Ht. destruct ca as [[a0 a1] a2]. destruct cb as [[b0 b1] b2].
  cbn [lerp color_between].
  repeat split; apply lerp_channel_bounds; assumption.
Qed.

(** X15: [lerp] returns the first colour at [t = 0], the second at
    [t = 1], and for [t] in [[0, 1]] a colour each of whose channels
    lies between the two given ones (so valid colours mix to a valid
    colour). *)
Theorem lerp_colors (ca cb : Color) (t : R) :
  0 <= t <= 1 ->
  lerp ca cb 0 = ca /\ lerp ca cb 1 = cb /\ color_between ca cb (lerp ca cb t).
Proof.
  intros Ht. split; [|split; [|apply lerp_between; exact Ht]].
  - destruct ca as [[a0 a1] a2]. destruct cb as [[b0 b1] b2].
    cbn [lerp]. rewrite !lerp_channel_0. reflexivity.
  - destruct ca as [[a0 a1] a2]. destruct cb as [[b0 b1] b2].
    cbn [lerp]. rewrite !lerp_channel_1. reflexivity.
Qed.

Lemma lerp_colors_witness :
  lerp SKY_TOP SKY_BOTTOM 0 = SKY_TOP /\
  lerp SKY_TOP SKY_BOTTOM 1 = SKY_BOTTOM /\
  color_between SKY_TOP SKY_BOTTOM (lerp SKY_TOP SKY_BOTTOM 0.5).
Proof.
  apply (lerp_colors SKY_TOP SKY_BOTTOM 0.5). lra.
Defined.

(** X16: [draw_vertical_gradient] draws one horizontal line per row of
    the surface, from row 0 down, each across the whole width and in a
    colour between the two given ones; the first line has exactly the
    top colour, and an empty surface gets no line (and no division by
    its height). *)
Theorem gradient_lines (width height : nat) (top bottom : Color) :
  let lines := draw_vertical_gradient width height top bottom in
  List.length lines = height /\
  map (fun l => snd (fst l)) lines = map (fun yy => (0%Z, Z.of_nat yy)) (seq 0 height) /\
  Forall (fun l => color_between top bottom (fst (fst l)) /\
                   snd l = (Z.of_nat width, snd (snd (fst l)))) lines /\
  hd_error lines =
    match height with
    | O => None
    | S _ => Some (top, (0%Z, 0%Z), (Z.of_nat width, 0%Z))
    end.
Proof.
  unfold draw_vertical_gradient. cbv zeta.
  split; [rewrite length_map, length_seq; reflexivity|].
  split; [rewrite map_map; reflexivity|]. split.
  - rewrite Forall_forall. intros l Hl. apply in_map_iff in Hl.
    destruct Hl as (yy & <- & Hy). apply in_seq in Hy. cbn [fst snd].
    split; [|reflexivity]. apply lerp_between.
    assert (Hh : 0 < INR height) by (apply lt_0_INR; lia).
    assert (Hle : INR yy <= INR height) by (apply le_INR; lia).
    pose proof (pos_INR yy). split.
    + apply Rmult_le_pos; [assumption|]. left. apply Rinv_0_lt_compat. exact Hh.
    + apply (Rmult_le_reg_r (INR height)); [exact Hh|]. unfold Rdiv.
      rewrite Rmult_assoc, Rinv_l by lra. lra.
  - destruct height as [| h]; [reflexivity|].
    cbn [seq map hd_error]. f_equal. f_equal. f_equal.
    replace (INR 0 / INR (S h)) with 0 by (cbn [INR]; unfold Rdiv; ring).
    destruct top as [[a0 a1] a2]. destruct bottom as [[b0 b1] b2].
    cbn [lerp]. rewrite !lerp_channel_0. reflexivity.
Qed.

(** ** Debris on screen *)

Lemma py_int_lt (v : R) (b : Z) : v < IZR b -> (0 < b)%Z -> (py_int v < b)%Z.
Proof.
  intros Hv Hb. unfold py_int. destruct (Rle_dec 0 v) as [H | H].
  - pose proof (Int_part_bounds v).
    apply lt_IZR. lra.
  - pose proof (Int_part_mono 0 (- v) ltac:(lra)) as H1.
    rewrite (Int_part_IZR 0) in H1. lia.
Qed.

(** X17: in [draw_debris] the alpha is between 40 and 255 and the
    radius at least 2; for an object with [lifetime >= 0] the alpha is
    at least 76 (the floor of 40 is never used) and the radius at most
    4, with half a second or more left the radius is 2 or 3, and with
    0.7 seconds or more left the object is opaque.  Of two objects, the
    one with less lifetime left is at most as opaque and at least as
    large. *)
Theorem debris_look (d d' : Debris) :
  lifetime d <= lifetime d' ->
  (40 <= debris_alpha d <= 255)%Z /\ (2 <= debris_size d)%Z /\
  (debris_alpha d <= debris_alpha d')%Z /\
  (debris_size d' <= debris_size d)%Z /\
  (0 <= lifetime d -> (76 <= debris_alpha d)%Z /\ (debris_size d <= 4)%Z) /\
  (0.5 <= lifetime d -> (debris_size d <= 3)%Z) /\
  (0.7 <= lifetime d -> debris_alpha d = 255%Z).
Proof.
  intros Hle. unfold debris_alpha, debris_size.
  assert (Hmin : forall l, Rmin 1.0 (l + 0.3) <= 1 /\
                           (l + 0.3 <= 1 -> Rmin 1.0 (l + 0.3) = l + 0.3) /\
                           (1 <= l + 0.3 -> Rmin 1.0 (l + 0.3) = 1)).
  { intros l. unfold Rmin. destruct (Rle_dec 1.0 (l + 0.3)); repeat split; lra. }
  destruct (Hmin (lifetime d)) as (M1 & M2 & M3).
  destruct (Hmin (lifetime d')) as (M1' & M2' & M3').
  assert (Hup : (py_int (255 * Rmin 1.0 (lifetime d + 0.3)) <= 255)%Z).
  { rewrite <- (py_int_IZR 255) at 2. apply py_int_mono. lra. }
  assert (Hmono : Rmin 1.0 (lifetime d + 0.3) <= Rmin 1.0 (lifetime d' + 0.3)).
  { apply Rle_min_compat_l. lra. }
  pose proof (py_int_mono (255 * Rmin 1.0 (lifetime d + 0.3))
                (255 * Rmin 1.0 (lifetime d' + 0.3)) ltac:(lra)) as Ha.
  pose proof (py_int_mono (4 - lifetime d' * 2) (4 - lifetime d * 2)
                ltac:(lra)) as Hs.
  split; [lia|]. split; [lia|]. split; [lia|]. split; [lia|].
  split; [|split].
  - intros Hpos. split.
    + assert (H76 : (76 <= py_int (255 * Rmin 1.0 (lifetime d + 0.3)))%Z).
      { rewrite <- (py_int_IZR 76) at 1. apply py_int_mono.
        destruct (Rle_dec (lifetime d + 0.3) 1) as [H | H].
        - rewrite M2 by assumption. lra.
        - rewrite M3 by lra. lra. }
      lia.
    + pose proof (py_int_mono (4 - lifetime d * 2) (IZR 4) ltac:(lra)) as H4.
      rewrite py_int_IZR in H4. lia.
  - intros H05.
    pose proof (py_int_mono (4 - lifetime d * 2) (IZR 3) ltac:(lra)) as H3.
    rewrite py_int_IZR in H3. lia.
  - intros H07. rewrite M3 by lra.
    replace (255 * 1) with (IZR 255) by lra. rewrite py_int_IZR. reflexivity.
Qed.

Lemma debris_look_witness :
  (40 <= debris_alpha debris_one <= 255)%Z /\ (2 <= debris_size debris_one)%Z /\
  (debris_alpha debris_one <= debris_alpha debris_one)%Z /\
  (debris_size debris_one <= debris_size debris_one)%Z /\
  (0 <= lifetime debris_one ->
   (76 <= debris_alpha debris_one)%Z /\ (debris_size debris_one <= 4)%Z) /\
  (0.5 <= lifetime debris_one -> (debris_size debris_one <= 3)%Z) /\
  (0.7 <= lifetime debris_one -> debris_alpha debris_one = 255%Z).
Proof.
  apply (debris_look debris_one debris_one). cbn. lra.
Defined.

(** ** Glows, fog, clouds and the tornado body *)

Lemma ratio_range (r radius : Z) :
  (1 <= r <= radius)%Z -> 0 < IZR r / IZR radius <= 1.
Proof.
  intros H.
  assert (Hr : 0 < IZR r) by (apply IZR_lt; lia).
  assert (Hn : 0 < IZR radius) by (apply IZR_lt; lia).
  assert (Hle : IZR r <= IZR radius) by (apply IZR_le; lia).
  split; [apply Rdiv_lt_0_compat; assumption|].
  apply (Rmult_le_reg_r (IZR radius)); [exact Hn|]. unfold Rdiv.
  rewrite Rmult_assoc, Rinv_l by lra. lra.
Qed.

Lemma range_down_pos (n : Z) :
  (0 < n)%Z -> exists rest, range_down n = n :: rest.
Proof.
  intros H. unfold range_down.
  destruct (Z.to_nat n) as [| k] eqn:E; [lia|].
  cbn [seq map]. eexists. f_equal. lia.
Qed.

Lemma valid_channel_iff (c : Z) : valid_channel c = true <-> (0 <= c <= 255)%Z.
Proof. unfold valid_channel. rewrite andb_true_iff. lia. Qed.

Lemma valid_rgba_iff (c0 c1 c2 a : Z) :
  valid_rgba (c0, c1, c2) a = true <->
  (0 <= c0 <= 255 /\ 0 <= c1 <= 255 /\ 0 <= c2 <= 255 /\ 0 <= a <= 255)%Z.
Proof.
  unfold valid_rgba. rewrite !andb_true_iff, !valid_channel_iff. tauto.
Qed.

(** With a valid colour, lowering the alpha keeps the colour valid. *)
Lemma valid_rgba_lower (color : Color) (alpha a : Z) :
  valid_rgba color alpha = true -> (0 <= a <= alpha)%Z ->
  valid_rgba color a = true.
Proof.
  destruct color as [[c0 c1] c2]. rewrite !valid_rgba_iff. lia.
Qed.

Lemma glow_circle_some (alpha radius : Z) (color : Color) (r : Z) :
  valid_rgba color alpha = true -> (1 <= r <= radius)%Z ->
  glow_circle alpha radius color r =
    Some (color,
          py_int (IZR alpha * (IZR r / IZR radius * (IZR r / IZR radius))), r).
Proof.
  intros Hv Hr. unfold glow_circle. rewrite glow_alpha_some by assumption.
  assert (Ha : (0 <= alpha)%Z).
  { destruct color as [[c0 c1] c2]. apply valid_rgba_iff in Hv. lia. }
  rewrite (valid_rgba_lower color alpha); [reflexivity | exact Hv |].
  pose proof (ratio_range r radius Hr) as Hq.
  apply py_int_bounds. cbn [IZR]. apply IZR_le in Ha.
  set (q := IZR r / IZR radius) in *.
  assert (0 <= q * q <= 1) by nra. nra.
Qed.

Lemma draw_radial_glow_some (center : Z * Z) (radius : Z) (color : Color)
    (alpha : Z) :
  valid_rgba color alpha = true ->
  draw_radial_glow center radius color alpha =
    Some (map (fun r => (color,
                         py_int (IZR alpha * (IZR r / IZR radius
                                              * (IZR r / IZR radius))), r))
            (range_down radius),
          (fst center - radius, snd center - radius)%Z).
Proof.
  intros Hv. unfold draw_radial_glow. erewrite map_option_map; [reflexivity|].
  intros r Hr. apply range_down_In in Hr.
  apply glow_circle_some; assumption.
Qed.

(** X19: for a positive radius, [draw_radial_glow] raises exactly when
    the colour with the given alpha is not a valid colour (a component
    outside 0..255, rejected at the first circle).  Otherwise it draws
    one circle for each radius from [radius] down to 1, all in the given
    colour, on a surface placed [radius] to the left of and above the
    centre; each circle's alpha is between 0 and [alpha], the outermost
    circle has exactly [alpha], and a smaller circle never has a larger
    alpha. *)
Theorem radial_glow_circles (center : Z * Z) (radius : Z) (color : Color)
    (alpha : Z) :
  (0 < radius)%Z ->
  (valid_rgba color alpha = false ->
   draw_radial_glow center radius color alpha = None) /\
  (valid_rgba color alpha = true ->
   exists circles,
     draw_radial_glow center radius color alpha =
       Some (circles, (fst center - radius, snd center - radius)%Z) /\
     map snd circles = range_down radius /\
     List.length circles = Z.to_nat radius /\
     hd_error circles = Some (color, alpha, radius) /\
     Forall (fun c => fst (fst c) = color /\
                      (0 <= snd (fst c) <= alpha)%Z /\
                      (1 <= snd c <= radius)%Z) circles /\
     (forall c1 c2, In c1 circles -> In c2 circles ->
                    (snd c1 <= snd c2)%Z -> (snd (fst c1) <= snd (fst c2))%Z)).
Proof.
  intros Hr.
  assert (E1 : IZR radius / IZR radius = 1).
  { unfold Rdiv. apply Rinv_r. apply IZR_lt in Hr. lra. }
  split.
  - intros Hv. unfold draw_radial_glow.
    destruct (range_down_pos radius Hr) as [rest ->].
    cbn [map_option]. unfold glow_circle at 1.
    rewrite glow_alpha_some by lia. rewrite E1.
    replace (IZR alpha * (1 * 1)) with (IZR alpha) by ring.
    rewrite py_int_IZR, Hv. reflexivity.
  - intros Hv. rewrite draw_radial_glow_some by exact Hv.
    assert (Ha : (0 <= alpha)%Z).
    { destruct color as [[c0 c1] c2]. apply valid_rgba_iff in Hv. lia. }
    set (f := fun r => (color,
                        py_int (IZR alpha * (IZR r / IZR radius
                                             * (IZR r / IZR radius))), r)).
    exists (map f (range_down radius)).
    assert (HA : 0 <= IZR alpha) by (apply IZR_le; exact Ha).
    split; [reflexivity|]. split; [|split; [|split; [|split]]].
    + rewrite map_map. unfold f. cbn [snd]. apply map_id.
    + rewrite length_map. unfold range_down. rewrite length_map, length_seq.
      reflexivity.
    + destruct (range_down_pos radius Hr) as [rest ->]. cbn [map hd_error].
      unfold f. f_equal. f_equal. f_equal.
      rewrite E1. replace (IZR alpha * (1 * 1)) with (IZR alpha) by ring.
      apply py_int_IZR.
    + rewrite Forall_forall. intros c Hc. apply in_map_iff in Hc.
      destruct Hc as (r & <- & Hin). apply range_down_In in Hin.
      unfold f. cbn [fst snd]. split; [reflexivity|]. split; [|exact Hin].
      pose proof (ratio_range r radius Hin) as Hq.
      apply py_int_bounds. cbn [IZR].
      set (q := IZR r / IZR radius) in *.
      assert (0 <= q * q <= 1) by nra. nra.
    + intros c1 c2 H1 H2 Hle. apply in_map_iff in H1, H2.
      destruct H1 as (r1 & <- & Hin1). destruct H2 as (r2 & <- & Hin2).
      apply range_down_In in Hin1, Hin2. unfold f in *. cbn [fst snd] in *.
      apply py_int_mono.
      pose proof (ratio_range r1 radius Hin1) as Hq1.
      pose proof (ratio_range r2 radius Hin2) as Hq2.
      assert (Hq : IZR r1 / IZR radius <= IZR r2 / IZR radius).
      { unfold Rdiv. apply Rmult_le_compat_r.
        - left. apply Rinv_0_lt_compat. apply IZR_lt. lia.
        - apply IZR_le. exact Hle. }
      set (q1 := IZR r1 / IZR radius) in *. set (q2 := IZR r2 / IZR radius) in *.
      assert (q1 * q1 <= q2 * q2) by nra. nra.
Qed.

Lemma radial_glow_circles_witness :
  draw_radial_glow (CENTER_X, GROUND_Y) 260 (100, 120, 130)%Z 300 = None /\
  exists circles,
    draw_radial_glow (CENTER_X, GROUND_Y) 260 (100, 120, 130)%Z 60 =
      Some (circles, (fst (CENTER_X, GROUND_Y) - 260,
                      snd (CENTER_X, GROUND_Y) - 260)%Z) /\
    map snd circles = range_down 260 /\
    List.length circles = Z.to_nat 260 /\
    hd_error circles = Some ((100, 120, 130), 60, 260)%Z /\
    Forall (fun c => fst (fst c) = (100, 120, 130)%Z /\
                     (0 <= snd (fst c) <= 60)%Z /\
                     (1 <= snd c <= 260)%Z) circles /\
    (forall c1 c2, In c1 circles -> In c2 circles ->
                   (snd c1 <= snd c2)%Z -> (snd (fst c1) <= snd (fst c2))%Z).
Proof.
  split.
  - apply (radial_glow_circles (CENTER_X, GROUND_Y) 260 (100, 120, 130)%Z 300);
      [lia | reflexivity].
  - apply (radial_glow_circles (CENTER_X, GROUND_Y) 260 (100, 120, 130)%Z 60);
      [lia | reflexivity].
Defined.

(** ** Drawing: what can raise *)

Lemma current_level_color (self : TornadoSimulator) (lvl : Level) :
  current_level self = Some lvl ->
  forall a, (0 <= a <= 255)%Z -> valid_rgba (color lvl) a = true.
Proof.
  unfold current_level.
  destruct (py_index level_names (level_index self)) as [name|]; [|discriminate].
  intros H a Ha. apply dict_get_In in H. cbn [EF_LEVELS map snd In] in H.
  repeat (destruct H as [<- | H];
          [cbn [color]; apply valid_rgba_iff; lia|]).
  contradiction.
Qed.

(** With brightness in [[0, 1]] and a valid tint the colour of a sprite
    is valid, so only the projection can make [draw_sprite] raise. *)
Lemma draw_sprite_none_iff (br : R) (tint : Color) (p : Particle) :
  0 <= brightness p <= 1 -> valid_rgba tint 0 = true ->
  (draw_sprite br tint p = None <-> project br p = None).
Proof.
  intros Hb Ht. unfold draw_sprite, particle_sprite.
  destruct (project br p) as [[[px py] sz] |]; [|tauto].
  cbn [sprite_tone sprite_alpha].
  assert (Hv : valid_rgba (lerp (60, 60, 70)%Z tint (brightness p))
                 (py_int (220 * brightness p)) = true).
  { pose proof (lerp_between (60, 60, 70)%Z tint (brightness p) Hb) as Hbt.
    pose proof (py_int_bounds 0 220 (220 * brightness p) ltac:(cbn [IZR]; lra)).
    destruct tint as [[t0 t1] t2]. apply valid_rgba_iff in Ht.
    cbn [lerp color_between] in *. apply valid_rgba_iff. lia. }
  rewrite Hv. split; discriminate.
Qed.

(** ** Particles on screen *)

(** X18: a particle inside the tornado with brightness in [[0.5, 1.0]]
    is drawn with an alpha between 110 and 220, a tone between the dark
    base tone (60, 60, 70) and the level's tint, and a radius from 1 to
    5, on a surface whose corner is the projected position minus that
    radius; with a valid tint the drawing call accepts the colour. *)
Theorem particle_sprite_look (br : R) (tint : Color) (p : Particle) :
  particle_ok p ->
  exists px py s,
    project br p = Some (px, py, sprite_size s) /\
    particle_sprite br tint p = Some s /\
    sprite_corner s = (px - sprite_size s, py - sprite_size s)%Z /\
    (1 <= sprite_size s <= 5)%Z /\
    (110 <= sprite_alpha s <= 220)%Z /\
    color_between (60, 60, 70)%Z tint (sprite_tone s) /\
    (valid_rgba tint 0 = true -> draw_sprite br tint p = Some s).
Proof.
  intros (Ha & Hs & Hb).
  destruct (project_in_range br p Ha Hs) as (r & _ & E).
  destruct (render_size_truncates br p Ha Hs) as (_ & _ & Hsize).
  pose proof (draw_sprite_none_iff br tint p ltac:(lra)) as Hds.
  unfold draw_sprite in *. unfold particle_sprite in *. rewrite E in *.
  eexists _, _, (mkSprite _ _ _ _). cbn [sprite_size sprite_corner sprite_alpha sprite_tone] in *.
  split; [reflexivity|]. split; [reflexivity|]. split; [reflexivity|].
  split; [exact Hsize|]. split; [|split].
  - apply py_int_bounds. lra.
  - apply lerp_between. lra.
  - intros Ht. specialize (Hds Ht).
    destruct (valid_rgba _ _); [reflexivity|].
    destruct Hds as [Hds _]. specialize (Hds eq_refl). discriminate.
Qed.

Lemma particle_sprite_look_witness :
  exists px py s,
    project 180 particle_tenth = Some (px, py, sprite_size s) /\
    particle_sprite 180 (210, 220, 230)%Z particle_tenth = Some s /\
    sprite_corner s = (px - sprite_size s, py - sprite_size s)%Z /\
    (1 <= sprite_size s <= 5)%Z /\
    (110 <= sprite_alpha s <= 220)%Z /\
    color_between (60, 60, 70)%Z (210, 220, 230)%Z (sprite_tone s) /\
    (valid_rgba (210, 220, 230)%Z 0 = true ->
     draw_sprite 180 (210, 220, 230)%Z particle_tenth = Some s).
Proof.
  apply (particle_sprite_look 180 (210, 220, 230)%Z particle_tenth).
  unfold particle_ok. rewrite MAX_TORNADO_HEIGHT_val. cbn. lra.
Defined.

(** X12: with a defined current level, [draw] raises exactly when
    drawing some particle raises (its projection fails or its colour is
    not a valid colour); the cloud, tornado-body, glow, debris and fog
    passes never raise.  When every brightness is in [[0, 1]] the
    colours are valid, and [draw] raises exactly when some particle's
    projection raises, which is exactly when the projection pass
    does. *)
Theorem draw_raises_iff (self : TornadoSimulator) (lvl : Level) :
  current_level self = Some lvl ->
  (draw self = None <->
     exists p, In p (particles self) /\
               draw_sprite (base_radius lvl) (color lvl) p = None) /\
  (Forall (fun p => 0 <= brightness p <= 1) (particles self) ->
   (draw self = None <->
      exists p, In p (particles self) /\ project (base_radius lvl) p = None) /\
   (draw_particles self = None <-> draw self = None)).
Proof.
  intros Hlvl.
  assert (Hbody : draw_tornado_body self <> None).
  { unfold draw_tornado_body. rewrite Hlvl.
    intros F. apply map_option_none_iff in F. destruct F as (layer & Hin & F).
    apply in_seq in Hin. rewrite body_ring_some in F by lia. discriminate. }
  assert (Hdraw : draw self = None <->
                  exists p, In p (particles self) /\
                            draw_sprite (base_radius lvl) (color lvl) p = None).
  { rewrite <- map_option_none_iff.
    unfold draw, draw_particles_scene. rewrite Hlvl.
    destruct (draw_tornado_body self) as [body |]; [|contradiction Hbody; reflexivity].
    rewrite (draw_radial_glow_some _ 220 (color lvl) 55)
      by (apply (current_level_color self lvl Hlvl); lia).
    rewrite (draw_radial_glow_some _ 260 (100, 120, 130)%Z 60) by reflexivity.
    match goal with
    | |- context [map_option ?f (particles self)] =>
        destruct (map_option f (particles self))
    end; split; intros; congruence. }
  split; [exact Hdraw|].
  intros Hbr.
  assert (Hproj : (exists p, In p (particles self) /\
                             draw_sprite (base_radius lvl) (color lvl) p = None)
                  <-> exists p, In p (particles self) /\
                                project (base_radius lvl) p = None).
  { rewrite Forall_forall in Hbr.
    split; intros (p & Hin & E); exists p; (split; [exact Hin|]);
      apply (draw_sprite_none_iff (base_radius lvl) (color lvl) p (Hbr p Hin)
               (current_level_color self lvl Hlvl 0%Z ltac:(lia)));
      exact E. }
  split; [rewrite Hdraw; exact Hproj|].
  rewrite Hdraw, Hproj. unfold draw_particles.
  rewrite Hlvl, project_all_map_option. apply map_option_none_iff.
Qed.

Lemma draw_raises_iff_witness :
  (draw sim_ground_EF5 = None <->
     exists p, In p (particles sim_ground_EF5) /\
               draw_sprite 280.0 (255, 250, 220)%Z p = None) /\
  (draw sim_ground_EF5 = None <->
     exists p, In p (particles sim_ground_EF5) /\ project 280.0 p = None) /\
  (draw_particles sim_ground_EF5 = None <-> draw sim_ground_EF5 = None).
Proof.
  destruct (draw_raises_iff sim_ground_EF5
              (mkLevel 4.5 360.0 280.0 0.60 (255, 250, 220)%Z) eq_refl)
    as [H1 H2].
  split; [exact H1|]. apply H2.
  constructor; [cbn; lra | constructor].
Defined.

(** X20: the fog of [draw_ground] has one line for each of the 108 rows
    below the ground line; its alpha starts at 120 on the first row,
    never increases on the way down, and stays at least 1. *)
Theorem fog_lines :
  map fst draw_ground = map Z.of_nat (seq 0 108) /\
  hd_error draw_ground = Some (0, 120)%Z /\
  Forall (fun l => (1 <= snd l <= 120)%Z) draw_ground /\
  (forall y1 y2, (y1 <= y2 < 108)%nat ->
                 (fog_alpha 108 y2 <= fog_alpha 108 y1)%Z).
Proof.
  assert (E : draw_ground =
              map (fun yy => (Z.of_nat yy, fog_alpha 108 yy)) (seq 0 108))
    by reflexivity.
  assert (H108 : INR 108 = 108) by (rewrite INR_IZR_INZ; reflexivity).
  assert (Hq : forall yy, (yy < 108)%nat -> 0 <= INR yy / INR 108 <= 107 / 108).
  { intros yy Hy. rewrite H108. pose proof (pos_INR yy).
    assert (INR yy <= 107).
    { replace 107 with (INR 107) by (rewrite INR_IZR_INZ; reflexivity).
      apply le_INR. lia. }
    lra. }
  rewrite E. split; [rewrite map_map; reflexivity|]. split; [|split].
  - cbn [seq map hd_error]. f_equal. f_equal. unfold fog_alpha.
    replace (120 * (1 - INR 0 / INR 108)) with (IZR 120)
      by (cbn [INR]; unfold Rdiv; ring).
    apply py_int_IZR.
  - rewrite Forall_forall. intros l Hl. apply in_map_iff in Hl.
    destruct Hl as (yy & <- & Hy). apply in_seq in Hy. cbn [snd].
    unfold fog_alpha. apply py_int_bounds.
    pose proof (Hq yy ltac:(lia)). lra.
  - intros y1 y2 Hy. unfold fog_alpha. apply py_int_mono.
    assert (INR y1 <= INR y2) by (apply le_INR; lia).
    rewrite H108. lra.
Qed.

(** X21: at every time each of the eight cloud ellipses spans the whole
    width of the canvas (its box starts left of 0 and ends right of
    960), its top edge lies within 12 pixels of [80 + 18 i], and its
    colour and alpha are valid and grow with the index. *)
Theorem clouds_span_canvas (t : R) (i : nat) :
  (i < 8)%nat ->
  let '((cr, cg, cb, ca), (lx, top, w, h)) := cloud t i in
  lx <= -120 /\ IZR WIDTH + 120 <= lx + w /\
  68 + 18 * INR i <= top <= 92 + 18 * INR i /\ h = 120 /\
  (200 <= cr <= 221 /\ 210 <= cg <= 238 /\ 220 <= cb <= 255 /\
   30 <= ca <= 86)%Z.
Proof.
  intros Hi. unfold cloud. cbv zeta.
  pose proof (SIN_bound (t * (0.2 + INR i * 0.03))) as [Hs1 Hs2].
  pose proof (COS_bound (t * (0.2 + INR i * 0.03) * 0.7)) as [Hc1 Hc2].
  replace (IZR (WIDTH + 320)) with 1280 by reflexivity.
  replace (IZR WIDTH) with 960 by reflexivity.
  repeat split; try lra; lia.
Qed.

Lemma clouds_span_canvas_witness :
  let '((cr, cg, cb, ca), (lx, top, w, h)) := cloud 12.5 7 in
  lx <= -120 /\ IZR WIDTH + 120 <= lx + w /\
  68 + 18 * INR 7 <= top <= 92 + 18 * INR 7 /\ h = 120 /\
  (200 <= cr <= 221 /\ 210 <= cg <= 238 /\ 220 <= cb <= 255 /\
   30 <= ca <= 86)%Z.
Proof.
  apply (clouds_span_canvas 12.5 7). lia.
Defined.

Lemma Rpower_exp_antitone (u e1 e2 : R) :
  0 < u <= 1 -> e1 <= e2 -> Rpower u e2 <= Rpower u e1.
Proof.
  intros Hu He. unfold Rpower.
  assert (Hln : ln u <= 0).
  { destruct (Req_dec u 1) as [-> | Hne]; [rewrite ln_1; lra|].
    pose proof (ln_increasing u 1 ltac:(lra) ltac:(lra)) as H.
    rewrite ln_1 in H. lra. }
  assert (Hm : e2 * ln u <= e1 * ln u) by nra.
  destruct Hm as [Hlt | Heq].
  - left. apply exp_increasing. exact Hlt.
  - rewrite Heq. lra.
Qed.

Lemma layer_ratio (layer : nat) : (layer < 40)%nat -> 0 <= INR layer / 40 < 1.
Proof.
  intros H. pose proof (pos_INR layer).
  assert (INR layer <= 39).
  { replace 39 with (INR 39) by (rewrite INR_IZR_INZ; reflexivity).
    apply le_INR. lia. }
  lra.
Qed.

(** X22: for a positive base radius none of the 40 rings of
    [draw_tornado_body] raises; each ring is centred on [CENTER_X], has
    a width between 0 and twice the base radius and an alpha between 0
    and 100, and sits at height [layer/40] of the tornado.  A higher
    ring is strictly narrower and at most as opaque. *)
Theorem body_rings_narrow (base : R) (l1 l2 : nat) :
  0 < base -> (l1 <= l2 < 40)%nat ->
  exists a1 left1 top1 w1 a2 left2 top2 w2,
    body_ring base l1 = Some (a1, (left1, top1, w1, 60)) /\
    body_ring base l2 = Some (a2, (left2, top2, w2, 60)) /\
    (0 <= a2 <= a1)%Z /\ (a1 <= 100)%Z /\
    0 < w2 <= w1 /\ w1 <= 2 * base /\
    ((l1 < l2)%nat -> w2 < w1) /\
    left1 + w1 / 2 = IZR CENTER_X /\ left2 + w2 / 2 = IZR CENTER_X /\
    top1 + 30 = IZR GROUND_Y - INR l1 / 40 * IZR MAX_TORNADO_HEIGHT /\
    top2 + 30 = IZR GROUND_Y - INR l2 / 40 * IZR MAX_TORNADO_HEIGHT.
Proof.
  intros Hb [H12 H2].
  rewrite (body_ring_some base l1) by lia.
  rewrite (body_ring_some base l2) by lia. cbv zeta.
  pose proof (layer_ratio l1 ltac:(lia)) as Ht1.
  pose proof (layer_ratio l2 ltac:(lia)) as Ht2.
  assert (Ht : INR l1 / 40 <= INR l2 / 40).
  { assert (INR l1 <= INR l2) by (apply le_INR; lia). lra. }
  set (t1 := INR l1 / 40) in *. set (t2 := INR l2 / 40) in *.
  set (e1 := neck_exponent (1 - t1 * 0.85)).
  set (e2 := neck_exponent (1 - t2 * 0.85)).
  assert (He1 : 0 < e1) by (unfold e1, neck_exponent; lra).
  assert (He12 : e1 <= e2) by (unfold e1, e2, neck_exponent; lra).
  pose proof (Rpower_pos (1 - t1) e1) as P1.
  pose proof (Rpower_pos (1 - t2) e2) as P2.
  pose proof (Rpower_le_1 (1 - t1) e1 ltac:(lra) ltac:(lra)) as Q1.
  assert (HP : Rpower (1 - t2) e2 <= Rpower (1 - t1) e1).
  { apply Rle_trans with (Rpower (1 - t2) e1).
    - apply Rpower_exp_antitone; [lra | exact He12].
    - apply Rle_Rpower_l; lra. }
  assert (HPs : t1 < t2 -> Rpower (1 - t2) e2 < Rpower (1 - t1) e1).
  { intros Hlt. apply Rle_lt_trans with (Rpower (1 - t2) e1).
    - apply Rpower_exp_antitone; [lra | exact He12].
    - apply Rlt_Rpower_l; lra. }
  pose proof (Rpower_pos (1 - t1) 1.8) as A1.
  pose proof (Rpower_pos (1 - t2) 1.8) as A2.
  pose proof (Rpower_le_1 (1 - t1) 1.8 ltac:(lra) ltac:(lra)) as B1.
  assert (HA : Rpower (1 - t2) 1.8 <= Rpower (1 - t1) 1.8)
    by (apply Rle_Rpower_l; lra).
  set (p1 := Rpower (1 - t1) e1) in *. set (p2 := Rpower (1 - t2) e2) in *.
  set (f1 := 0.6 + 0.4 * (1 - t1 * 0.85)). set (f2 := 0.6 + 0.4 * (1 - t2 * 0.85)).
  assert (Hf1 : 0 < f1 <= 1) by (unfold f1; lra).
  assert (Hf2 : 0 < f2 <= f1) by (unfold f1, f2; lra).
  assert (Hbp1 : 0 < base * p1) by (apply Rmult_lt_0_compat; assumption).
  assert (Hbp2 : 0 < base * p2) by (apply Rmult_lt_0_compat; assumption).
  assert (Hbp : base * p2 <= base * p1) by nra.
  assert (Hw : base * p2 * f2 <= base * p1 * f1) by nra.
  assert (Hw1 : base * p1 * f1 <= base) by nra.
  assert (Hw2 : 0 < base * p2 * f2) by (apply Rmult_lt_0_compat; lra).
  do 8 eexists. split; [reflexivity|]. split; [reflexivity|].
  split; [|split; [|split; [|split; [|split; [|repeat split; lra]]]]].
  - split.
    + rewrite <- (py_int_IZR 0) at 1. apply py_int_mono. cbn [IZR]. lra.
    + apply py_int_mono. lra.
  - rewrite <- (py_int_IZR 100) at 2. apply py_int_mono. lra.
  - lra.
  - lra.
  - intros Hlt.
    assert (Hts : t1 < t2).
    { unfold t1, t2. assert (INR l1 < INR l2) by (apply lt_INR; exact Hlt). lra. }
    specialize (HPs Hts).
    assert (base * p2 < base * p1) by nra.
    assert (base * p2 * f2 < base * p1 * f1) by nra. lra.
Qed.

Lemma body_rings_narrow_witness :
  exists a1 left1 top1 w1 a2 left2 top2 w2,
    body_ring 180 0 = Some (a1, (left1, top1, w1, 60)) /\
    body_ring 180 39 = Some (a2, (left2, top2, w2, 60)) /\
    (0 <= a2 <= a1)%Z /\ (a1 <= 100)%Z /\
    0 < w2 <= w1 /\ w1 <= 2 * 180 /\
    ((0 < 39)%nat -> w2 < w1) /\
    left1 + w1 / 2 = IZR CENTER_X /\ left2 + w2 / 2 = IZR CENTER_X /\
    top1 + 30 = IZR GROUND_Y - INR 0 / 40 * IZR MAX_TORNADO_HEIGHT /\
    top2 + 30 = IZR GROUND_Y - INR 39 / 40 * IZR MAX_TORNADO_HEIGHT.
Proof.
  apply (body_rings_narrow 180 0 39); [lra | lia].
Defined.

(** ** Bounded ticks and the first frame *)

Lemma Particle_updates_altitude_small_steps_witness :
  0 <= altitude (fst (Particle_updates
                        [(1 / 60, 2.2, 200, 180); (1.5, 4.5, 360, 280)]
                        particle_ground rng_half))
    <= IZR MAX_TORNADO_HEIGHT.
Proof.
  apply (Particle_updates_altitude_small_steps
           [(1 / 60, 2.2, 200, 180); (1.5, 4.5, 360, 280)]).
  - rewrite MAX_TORNADO_HEIGHT_val. repeat constructor; lra.
  - intros n. unfold rng_half. lra.
  - cbn. lra.
  - rewrite MAX_TORNADO_HEIGHT_val. cbn. lra.
Defined.

(** X25: the first frame after construction does not raise when it
    lasts at most a second and a half, whatever the events and the
    random draws are: all 220 particles are updated and drawn, the state
    stays safe and the clock shows the frame time. *)
Theorem first_frame_safe (dt : R) (events : list Event) (g : Rng) :
  rng_ok g -> 0 <= dt <= 1.5 ->
  exists self',
    fst (frame dt events (true, fst (init g)) (snd (init g))) =
      Some (fst (handle_events events (true, fst (init g))), self') /\
    sim_ok self' /\
    List.length (particles self') = 220%nat /\
    time self' = dt.
Proof.
  intros Hg Hdt.
  destruct (random_particles_spec PARTICLES_PER_LEVEL g Hg) as (Hl & Hg1 & Hall).
  assert (Hinit : init g =
                  (mkSim (fst (random_particles PARTICLES_PER_LEVEL g))
                     (fun _ => no_debris) 0%nat [] 2%Z 0.0,
                   snd (random_particles PARTICLES_PER_LEVEL g))).
  { unfold init, bind.
    destruct (random_particles PARTICLES_PER_LEVEL g). reflexivity. }
  rewrite Hinit. cbn [fst snd].
  match goal with
  | |- context [frame dt events (true, ?s) ?g1] =>
      destruct (frame_step dt events true s g1) as (self' & E & Hok & _ & Ht & Hlen)
  end.
  - unfold sim_ok, debris_wf.
    cbn [particles debris_particles next_ref level_index].
    split; [split; constructor|]. split; [lia|].
    eapply Forall_impl; [|exact Hall]. intros p Hp. apply Hp.
  - exact Hg1.
  - exact Hdt.
  - exists self'. split; [exact E|]. split; [exact Hok|].
    cbn [particles time] in Hlen, Ht. split; [|lra].
    rewrite Hlen, Hl. reflexivity.
Qed.

Lemma first_frame_safe_witness :
  exists self',
    fst (frame (1 / 60) [KEYDOWN K_SPACE] (true, fst (init rng_half))
           (snd (init rng_half))) =
      Some (fst (handle_events [KEYDOWN K_SPACE] (true, fst (init rng_half))),
            self') /\
    sim_ok self' /\
    List.length (particles self') = 220%nat /\
    time self' = 1 / 60.
Proof.
  apply (first_frame_safe (1 / 60) [KEYDOWN K_SPACE] rng_half).
  - intros n. unfold rng_half. lra.
  - lra.
Defined.
